(** * carrots: an in-situ permission scanner (Go), embedded in Rocq

    The development follows [carrots.go].  Go packages that the source
    imports ([os], [io], [fmt], [regexp], [path], [path/filepath]) are
    modelled in modules of the same name, restricted to what the source
    calls; the package [carrots] itself comes after them, one definition
    per Go function, with the names of the source. *)

From Stdlib Require Import String Ascii List NArith ZArith Bool Lia.
Import ListNotations.
Local Open Scope list_scope.
Local Open Scope string_scope.

(* ================================================================= *)
(** ** Go runtime: panics, mutable receivers, errors *)

(** A Go call either returns or panics.  Nothing in the source recovers
    from a panic, so a panic ends the whole program. *)
Inductive outcome (A : Type) : Type :=
| Panic (msg : string)
| Done (a : A).
Arguments Panic {A} msg.
Arguments Done {A} a.

(** The message of the run-time panic raised by a method call on a nil
    interface value. *)
Definition nil_dereference : string :=
  "runtime error: invalid memory address or nil pointer dereference".

Definition obind {A B : Type} (m : outcome A) (k : A -> outcome B) : outcome B :=
  match m with
  | Panic msg => Panic msg
  | Done a => k a
  end.

Notation "'call' x ':=' m 'in' k" := (obind m (fun x => k))
  (at level 10, x name, m at level 100, k at level 200).

(** Code that runs against a pointer receiver of type [St]: it reads and
    updates the receiver and may panic. *)
Definition M (St A : Type) : Type := St -> outcome (A * St).

Definition ret {St A : Type} (a : A) : M St A := fun s => Done (a, s).

Definition bind {St A B : Type} (m : M St A) (k : A -> M St B) : M St B :=
  fun s =>
    match m s with
    | Panic msg => Panic msg
    | Done (a, s') => k a s'
    end.

Notation "x <- m ;; k" := (bind m (fun x => k))
  (at level 61, m at next level, right associativity).
Notation "m ;;; k" := (bind m (fun _ => k))
  (at level 61, right associativity).

(** Go [error] values that can reach the source: the sentinels of [io]
    and [path/filepath], the [*fs.PathError] of a failed system call and
    [errors.New] values.  [None : option error] is the nil error. *)
Inductive error : Type :=
| io_EOF
| filepath_SkipDir
| filepath_SkipAll
| fs_PathError (op path msg : string)
| errors_New (msg : string).

(** [err.Error()]. *)
Definition Error (e : error) : string :=
  match e with
  | io_EOF => "EOF"
  | filepath_SkipDir => "skip this directory"
  | filepath_SkipAll => "skip everything and stop the walk"
  | fs_PathError op path msg => op ++ " " ++ path ++ ": " ++ msg
  | errors_New msg => msg
  end.

Module io.
Definition EOF : error := io_EOF.
End io.

(** [err == sentinel] for the three sentinels; a [*fs.PathError] or an
    [errors.New] value is a different pointer from each of them. *)
Definition is_EOF (e : error) : bool :=
  match e with io_EOF => true | _ => false end.
Definition is_SkipDir (e : error) : bool :=
  match e with filepath_SkipDir => true | _ => false end.
Definition is_SkipAll (e : error) : bool :=
  match e with filepath_SkipAll => true | _ => false end.

(** Go octal literals of the source. *)
Definition o01000 : N := 512%N.
Definition o0700 : N := 448%N.
Definition o0400 : N := 256%N.
Definition o0644 : N := 420%N.
Definition o0600 : N := 384%N.
Definition o0755 : N := 493%N.

(* ================================================================= *)
(** ** Package os *)

Module os.

(** [os.FileMode] is a [uint32]: the nine permission bits are the low
    bits, the type and special bits are the high ones. *)
Definition FileMode : Type := N.
Bind Scope N_scope with FileMode.
Definition ModeDir : FileMode := 2147483648%N.  (* 1 << 31 *)
Definition ModeSetuid : FileMode := 8388608%N.  (* 1 << 23 *)
Definition ModeSetgid : FileMode := 4194304%N.  (* 1 << 22 *)
Definition ModeSticky : FileMode := 1048576%N.  (* 1 << 20 *)
Definition ModePerm : FileMode := 511%N.       (* 0777 *)

(** What [os.Lstat] returns for an existing entry: its base name and
    its mode. *)
Record fileStat : Type := { name : string; mode : FileMode }.

(** The interface [os.FileInfo]; [None] is the nil interface value. *)
Definition FileInfo : Type := option fileStat.

Definition Name (info : FileInfo) : outcome string :=
  match info with
  | None => Panic nil_dereference
  | Some st => Done (name st)
  end.

Definition Mode (info : FileInfo) : outcome FileMode :=
  match info with
  | None => Panic nil_dereference
  | Some st => Done (mode st)
  end.

(** [m.IsDir()]: [m&ModeDir != 0]. *)
Definition IsDir (st : fileStat) : bool := N.testbit (mode st) 31%N.

(** A file tree as [Lstat] and a directory read show it.  A node is an
    entry whose [Lstat] succeeds; [readdir] is the error of reading its
    names when it is a directory that cannot be read; [children] lists
    its names in the order the read returns them, each with the result
    of its own [Lstat]. *)
Inductive node : Type :=
| Node (info : fileStat) (readdir : option error) (children : entries)
with entries : Type :=
| NoMore
| Vanished (name : string) (err : error) (rest : entries)
| Present (name : string) (n : node) (rest : entries).

Definition info_of (n : node) : fileStat :=
  match n with Node info _ _ => info end.

End os.

(* ================================================================= *)
(** ** Package fmt *)

Module fmt.

Definition digit (d : N) : ascii := ascii_of_N (48 + d)%N.

(** The digits of [u] in base 8, most significant first, as
    [fmtInteger] writes them from the right: [fuel] bounds the number
    of digits. *)
Fixpoint octal_digits (fuel : nat) (u : N) (acc : string) : string :=
  match fuel with
  | O => String (digit (u mod 8)%N) acc
  | S fuel' =>
      if (8 <=? u)%N
      then octal_digits fuel' (u / 8)%N (String (digit (u mod 8)%N) acc)
      else String (digit u) acc
  end.

Definition FormatOctal (u : N) : string :=
  octal_digits (N.size_nat u) u "".

Fixpoint zeros (n : nat) : string :=
  match n with
  | O => ""
  | S n' => String "0" (zeros n')
  end.

(** The verb [%04o] on an unsigned integer: octal, left-padded with
    zeros to a width of at least four. *)
Definition verb_04o (u : N) : string :=
  let ds := FormatOctal u in
  zeros (4 - String.length ds) ++ ds.

Inductive arg : Type :=
| Str (s : string)
| Uint (u : N).

(** [fmt.Sprintf] for the two verbs of the source, [%s] on a string
    and [%04o] on an unsigned integer; every other byte of the format
    is copied. *)
Fixpoint Sprintf (format : string) (args : list arg) : string :=
  match format with
  | String "%" (String "s" rest) =>
      match args with
      | Str s :: args' => s ++ Sprintf rest args'
      | _ => "%!s(BADARG)" ++ Sprintf rest (tl args)
      end
  | String "%" (String "0" (String "4" (String "o" rest))) =>
      match args with
      | Uint u :: args' => verb_04o u ++ Sprintf rest args'
      | _ => "%!o(BADARG)" ++ Sprintf rest (tl args)
      end
  | String c rest => String c (Sprintf rest args)
  | EmptyString => ""
  end.

End fmt.

(* ================================================================= *)
(** ** Package regexp *)

Module regexp.

(** The operators of [regexp/syntax] that the two patterns of the
    source parse to.  Both patterns are written between [^] and [$]
    and carry no flag, so a match is a match of the whole text, and
    [.] is any character but a newline. *)
Inductive Regexp : Type :=
| NoMatch
| EmptyMatch
| Literal (c : ascii)
| AnyCharNotNL
| Concat (r1 r2 : Regexp)
| Alternate (r1 r2 : Regexp)
| Star (r : Regexp)
| Plus (r : Regexp).

Definition newline : ascii := ascii_of_N 10.

Fixpoint Lit (s : string) : Regexp :=
  match s with
  | EmptyString => EmptyMatch
  | String c rest => Concat (Literal c) (Lit rest)
  end.

Fixpoint nullable (r : Regexp) : bool :=
  match r with
  | NoMatch => false
  | EmptyMatch => true
  | Literal _ => false
  | AnyCharNotNL => false
  | Concat r1 r2 => nullable r1 && nullable r2
  | Alternate r1 r2 => nullable r1 || nullable r2
  | Star _ => true
  | Plus r1 => nullable r1
  end.

(** What is left of [r] after it has read [c]. *)
Fixpoint deriv (c : ascii) (r : Regexp) : Regexp :=
  match r with
  | NoMatch => NoMatch
  | EmptyMatch => NoMatch
  | Literal d => if Ascii.eqb c d then EmptyMatch else NoMatch
  | AnyCharNotNL => if Ascii.eqb c newline then NoMatch else EmptyMatch
  | Concat r1 r2 =>
      Alternate (Concat (deriv c r1) r2)
                (if nullable r1 then deriv c r2 else NoMatch)
  | Alternate r1 r2 => Alternate (deriv c r1) (deriv c r2)
  | Star r1 => Concat (deriv c r1) (Star r1)
  | Plus r1 => Concat (deriv c r1) (Star r1)
  end.

Fixpoint matches (r : Regexp) (text : list ascii) : bool :=
  match text with
  | [] => nullable r
  | c :: rest => matches (deriv c r) rest
  end.

(** [re.MatchString(s)] for a pattern [^re$]. *)
Definition MatchString (re : Regexp) (s : string) : bool :=
  matches re (list_ascii_of_string s).

End regexp.

(* ================================================================= *)
(** ** Packages path and path/filepath (Unix: the separator is [/]) *)

Definition IsPathSeparator (c : ascii) : bool := Ascii.eqb c "/".

Fixpoint drop_while (f : ascii -> bool) (l : list ascii) : list ascii :=
  match l with
  | [] => []
  | c :: rest => if f c then drop_while f rest else l
  end.

Fixpoint take_while (f : ascii -> bool) (l : list ascii) : list ascii :=
  match l with
  | [] => []
  | c :: rest => if f c then c :: take_while f rest else []
  end.

Definition not_separator (c : ascii) : bool := negb (IsPathSeparator c).

Module path.

(** [path.Base]: the last element of the path, after trailing slashes
    are removed; ["."] for the empty path and ["/"] for a path of
    slashes only. *)
Definition Base (p : string) : string :=
  match p with
  | EmptyString => "."
  | _ =>
      let stripped := drop_while IsPathSeparator (rev (list_ascii_of_string p)) in
      let last := rev (take_while not_separator stripped) in
      match last with
      | [] => "/"
      | _ => string_of_list_ascii last
      end
  end.

End path.

Module filepath.

(** The [..] case of [Clean]: [out] is the buffer written so far, last
    byte first, and holds more than [dotdot] bytes.  The last byte is
    dropped, then bytes are dropped until the one dropped is a
    separator or only [dotdot] bytes are left. *)
Fixpoint backtrack (out : list ascii) (dotdot : nat) : list ascii :=
  match out with
  | [] => []
  | c :: rest =>
      if (dotdot <? List.length rest)%nat && negb (IsPathSeparator c)
      then backtrack rest dotdot
      else rest
  end.

Definition at_element_end (inp : list ascii) : bool :=
  match inp with
  | [] => true
  | c :: _ => IsPathSeparator c
  end.

(** The loop of [Clean]: [inp] is the unread part of the path, [out]
    the buffer (last byte first).  Every round reads at least one
    byte, so [fuel] is the length of the path. *)
Fixpoint clean_loop (fuel : nat) (rooted : bool) (inp out : list ascii)
         (dotdot : nat) : list ascii :=
  match fuel with
  | O => out
  | S fuel' =>
      match inp with
      | [] => out
      | c :: rest =>
          if IsPathSeparator c then
            clean_loop fuel' rooted rest out dotdot
          else if Ascii.eqb c "." && at_element_end rest then
            clean_loop fuel' rooted rest out dotdot
          else if Ascii.eqb c "." && match rest with
                                     | d :: rest2 => Ascii.eqb d "." && at_element_end rest2
                                     | [] => false
                                     end then
            let rest2 := tl rest in
            if (dotdot <? List.length out)%nat then
              clean_loop fuel' rooted rest2 (backtrack out dotdot) dotdot
            else if negb rooted then
              let out1 := if (0 <? List.length out)%nat then "/"%char :: out else out in
              let out2 := "."%char :: "."%char :: out1 in
              clean_loop fuel' rooted rest2 out2 (List.length out2)
            else
              clean_loop fuel' rooted rest2 out dotdot
          else
            let out1 :=
              if (rooted && negb (List.length out =? 1)%nat)
                 || (negb rooted && negb (List.length out =? 0)%nat)
              then "/"%char :: out else out in
            clean_loop fuel' rooted (drop_while not_separator inp)
                       (rev (take_while not_separator inp) ++ out1)%list dotdot
      end
  end.

(** [filepath.Clean]. *)
Definition Clean (p : string) : string :=
  match list_ascii_of_string p with
  | [] => "."
  | c :: rest =>
      let rooted := IsPathSeparator c in
      let out :=
        if rooted
        then clean_loop (String.length p) true rest ["/"%char] 1
        else clean_loop (String.length p) false (c :: rest) [] 0 in
      match out with
      | [] => "."
      | _ => string_of_list_ascii (rev out)
      end
  end.

(** [filepath.Dir]: the path up to and including its last separator,
    cleaned. *)
Definition Dir (p : string) : string :=
  Clean (string_of_list_ascii
           (rev (drop_while not_separator (rev (list_ascii_of_string p))))).

(** [filepath.Join] of two elements: empty elements are ignored, the
    others are joined by a separator and the result is cleaned. *)
Definition Join (dir name : string) : string :=
  match dir, name with
  | EmptyString, EmptyString => ""
  | EmptyString, _ => Clean name
  | _, EmptyString => Clean dir
  | _, _ => Clean (dir ++ "/" ++ name)
  end.

Definition WalkFunc (St : Type) : Type :=
  string -> os.FileInfo -> option error -> M St (option error).

Section Walking.
Context {St : Type} (walkFn : WalkFunc St).

(** [filepath.walk(path, info, walkFn)] on a node of the tree, and
    its loop over the names of a directory. *)
Fixpoint walk (p : string) (n : os.node) {struct n} : M St (option error) :=
  match n with
  | os.Node info readdir children =>
      if negb (os.IsDir info) then
        walkFn p (Some info) None
      else
        err1 <- walkFn p (Some info) readdir ;;
        match readdir, err1 with
        | None, None => walk_names p children
        | _, _ => ret err1
        end
  end
with walk_names (p : string) (names : os.entries) {struct names}
     : M St (option error) :=
  match names with
  | os.NoMore => ret None
  | os.Vanished name err rest =>
      let filename := Join p name in
      e <- walkFn filename None (Some err) ;;
      match e with
      | Some e' => if negb (is_SkipDir e') then ret (Some e') else walk_names p rest
      | None => walk_names p rest
      end
  | os.Present name child rest =>
      let filename := Join p name in
      e <- walk filename child ;;
      match e with
      | Some e' =>
          if negb (os.IsDir (os.info_of child)) || negb (is_SkipDir e')
          then ret (Some e')
          else walk_names p rest
      | None => walk_names p rest
      end
  end.

(** [filepath.Walk(root, fn)]; [lstat] is the result of
    [os.Lstat(root)]. *)
Definition Walk (lstat : error + os.node) (root : string) : M St (option error) :=
  err <- match lstat with
         | inl e => walkFn root None (Some e)
         | inr n => walk root n
         end ;;
  match err with
  | Some e => if is_SkipDir e || is_SkipAll e then ret None else ret (Some e)
  | None => ret None
  end.

End Walking.

End filepath.

(* ================================================================= *)
(** ** Package carrots *)

(** [SSHKeyPattern]: [^id_.+$]. *)
Definition SSHKeyPattern : regexp.Regexp :=
  regexp.Concat (regexp.Lit "id_") (regexp.Plus regexp.AnyCharNotNL).

(** [SSHPublicKeyPattern]: [^id_.+\.pub$]. *)
Definition SSHPublicKeyPattern : regexp.Regexp :=
  regexp.Concat (regexp.Lit "id_")
    (regexp.Concat (regexp.Plus regexp.AnyCharNotNL) (regexp.Lit ".pub")).

Record Scanner : Type := {
  Warnings : list string;
  Home : string
}.

(** [ScanSSH] analyzes [.ssh] directories. *)
Definition ScanSSH (o : Scanner) (pth : string) (info : os.FileInfo)
  : outcome (list string) :=
  call name := os.Name info in
  if (name =? ".ssh")%string then
    call m := os.Mode info in
    let mode := (m mod o01000)%N in
    if negb (mode =? o0700)%N
    then Done [fmt.Sprintf "%s: expected chmod 0700, got %04o" [fmt.Str pth; fmt.Uint mode]]
    else Done []
  else Done [].

(** [ScanSSHConfig] analyzes [.ssh/config] files. *)
Definition ScanSSHConfig (o : Scanner) (pth : string) (info : os.FileInfo)
  : outcome (list string) :=
  call name := os.Name info in
  if (name =? "config")%string then
    let parent := path.Base (filepath.Dir pth) in
    if (parent =? ".ssh")%string then
      call m := os.Mode info in
      let mode := (m mod o01000)%N in
      if negb (mode =? o0400)%N
      then Done [fmt.Sprintf "%s: expected chmod 0400, got %04o" [fmt.Str pth; fmt.Uint mode]]
      else Done []
    else Done []
  else Done [].

(** [ScanSSHKeys] analyzes [.ssh/id_.+(\.pub)?] files. *)
Definition ScanSSHKeys (o : Scanner) (pth : string) (info : os.FileInfo)
  : outcome (list string) :=
  call name := os.Name info in
  if regexp.MatchString SSHKeyPattern name then
    let parent := path.Base (filepath.Dir pth) in
    if (parent =? ".ssh")%string then
      call m := os.Mode info in
      let mode := (m mod o01000)%N in
      if regexp.MatchString SSHPublicKeyPattern name then
        if negb (mode =? o0644)%N
        then Done [fmt.Sprintf "%s: expected chmod 0644, got %04o" [fmt.Str pth; fmt.Uint mode]]
        else Done []
      else
        if negb (mode =? o0600)%N
        then Done [fmt.Sprintf "%s: expected chmod 0600, got %04o" [fmt.Str pth; fmt.Uint mode]]
        else Done []
    else Done []
  else Done [].

(** [ScanSSHAuthorizedKeys] analyzes [authorized_keys] files. *)
Definition ScanSSHAuthorizedKeys (o : Scanner) (pth : string) (info : os.FileInfo)
  : outcome (list string) :=
  call name := os.Name info in
  if (name =? "authorized_keys")%string then
    call m := os.Mode info in
    let mode := (m mod o01000)%N in
    if negb (mode =? o0600)%N
    then Done [fmt.Sprintf "%s: expected chmod 0600, got %04o" [fmt.Str pth; fmt.Uint mode]]
    else Done []
  else Done [].

(** [ScanSSHKnownHosts] analyzes [known_hosts] files. *)
Definition ScanSSHKnownHosts (o : Scanner) (pth : string) (info : os.FileInfo)
  : outcome (list string) :=
  call name := os.Name info in
  if (name =? "known_hosts")%string then
    call m := os.Mode info in
    let mode := (m mod o01000)%N in
    if negb (mode =? o0644)%N
    then Done [fmt.Sprintf "%s: expected chmod 0644, got %04o" [fmt.Str pth; fmt.Uint mode]]
    else Done []
  else Done [].

(** [ScanHome] analyzes home directories. *)
Definition ScanHome (o : Scanner) (pth : string) (info : os.FileInfo)
  : outcome (list string) :=
  call name := os.Name info in
  if (name =? Home o)%string then
    call m := os.Mode info in
    let mode := (m mod o01000)%N in
    if negb (mode =? o0755)%N
    then Done [fmt.Sprintf "%s: expected chmod 0755, got %04o" [fmt.Str pth; fmt.Uint mode]]
    else Done []
  else Done [].

(** The six rules, in the order in which [Walk] runs them. *)
Definition rules : list (Scanner -> string -> os.FileInfo -> outcome (list string)) :=
  [ScanSSH; ScanSSHConfig; ScanSSHKeys; ScanSSHAuthorizedKeys; ScanSSHKnownHosts; ScanHome].

(** [o.Warnings = append(o.Warnings, rule(o, pth, info)...)]. *)
Definition appendWarnings (rule : Scanner -> outcome (list string)) : M Scanner unit :=
  fun o =>
    call ws := rule o in
    Done (tt, {| Warnings := (Warnings o ++ ws)%list; Home := Home o |}).

(** [Walk] traverses a file path recursively, collecting known
    permission discrepancies.  The argument [err] is not read. *)
Definition Walk (pth : string) (info : os.FileInfo) (err : option error)
  : M Scanner (option error) :=
  appendWarnings (fun o => ScanSSH o pth info) ;;;
  appendWarnings (fun o => ScanSSHConfig o pth info) ;;;
  appendWarnings (fun o => ScanSSHKeys o pth info) ;;;
  appendWarnings (fun o => ScanSSHAuthorizedKeys o pth info) ;;;
  appendWarnings (fun o => ScanSSHKnownHosts o pth info) ;;;
  appendWarnings (fun o => ScanHome o pth info) ;;;
  ret None.

(** What the package asks of its environment: [os.UserHomeDir()] and
    [filepath.Walk(root, fn)]. *)
Record Host : Type := {
  UserHomeDir : error + string;
  filepath_Walk : string -> filepath.WalkFunc Scanner -> M Scanner (option error)
}.

(** The host whose [filepath.Walk] is Go's, run on the file system
    [lstat] (the result of [os.Lstat] on each root). *)
Definition go_host (home : error + string) (lstat : string -> error + os.node) : Host :=
  {| UserHomeDir := home;
     filepath_Walk := fun root fn => filepath.Walk fn (lstat root) root |}.

(** [NewScanner] constructs a scanner. *)
Definition NewScanner (h : Host) : error + Scanner :=
  match UserHomeDir h with
  | inl err => inl err
  | inr home => inr {| Warnings := []; Home := home |}
  end.

(** [Scan] checks the given root file path recursively for known
    permission discrepancies. *)
Definition Scan (h : Host) (root : string) : outcome (list string * option error) :=
  match NewScanner h with
  | inl err => Done ([], Some err)
  | inr scanner =>
      call r := filepath_Walk h root Walk scanner in
      let (err, scanner) := r in
      match err with
      | Some e =>
          if negb (is_EOF e)
          then Done (Warnings scanner, Some e)
          else Done (Warnings scanner, None)
      | None => Done (Warnings scanner, None)
      end
  end.

(** [Report] emits any warnings to the console; the result pairs the
    lines printed with the value returned. *)
Definition Report (h : Host) (root : string) : outcome (list string * Z) :=
  call r := Scan h root in
  let (warnings, err) := r in
  match warnings with
  | _ :: _ => Done (warnings, 1%Z)
  | [] =>
      match err with
      | Some e => Done ((warnings ++ [Error e])%list, 1%Z)
      | None => Done (warnings, 0%Z)
      end
  end.

(* ================================================================= *)
(** ** The policy the rules implement

    The definitions of this part are not translations of the source:
    they state, as a table of classifications and expected modes, what
    the rules are proved to compute ([policy_sound]), and name the
    notions the properties speak of. *)

(** The text of a discrepancy: the path, the expected mode and the mode
    found, both as [%04o] prints them. *)
Definition discrepancy (pth : string) (expected actual : N) : string :=
  pth ++ ": expected chmod " ++ fmt.verb_04o expected ++ ", got " ++ fmt.verb_04o actual.

(** A rule compares the mode found with the mode it expects, when it
    expects one for the entry. *)
Definition compare (pth : string) (expected : option N) (actual : N) : list string :=
  match expected with
  | None => []
  | Some e => if (actual =? e)%N then [] else [discrepancy pth e actual]
  end.

(** The classification of each rule: the mode it expects of an entry
    called [name] at [pth], or [None] when the rule does not apply. *)
Definition classifier : Type := Scanner -> string -> string -> option N.

Definition parent_is_ssh (pth : string) : bool :=
  (path.Base (filepath.Dir pth) =? ".ssh")%string.

Definition expects_SSH : classifier := fun _ _ name =>
  if (name =? ".ssh")%string then Some o0700 else None.

Definition expects_SSHConfig : classifier := fun _ pth name =>
  if (name =? "config")%string && parent_is_ssh pth then Some o0400 else None.

Definition expects_SSHKeys : classifier := fun _ pth name =>
  if regexp.MatchString SSHKeyPattern name && parent_is_ssh pth
  then if regexp.MatchString SSHPublicKeyPattern name then Some o0644 else Some o0600
  else None.

Definition expects_SSHAuthorizedKeys : classifier := fun _ _ name =>
  if (name =? "authorized_keys")%string then Some o0600 else None.

Definition expects_SSHKnownHosts : classifier := fun _ _ name =>
  if (name =? "known_hosts")%string then Some o0644 else None.

Definition expects_Home : classifier := fun o _ name =>
  if (name =? Home o)%string then Some o0755 else None.

Definition rule : Type := Scanner -> string -> os.FileInfo -> outcome (list string).

(** Each rule of the source with its classification. *)
Definition policy : list (rule * classifier) :=
  [ (ScanSSH, expects_SSH);
    (ScanSSHConfig, expects_SSHConfig);
    (ScanSSHKeys, expects_SSHKeys);
    (ScanSSHAuthorizedKeys, expects_SSHAuthorizedKeys);
    (ScanSSHKnownHosts, expects_SSHKnownHosts);
    (ScanHome, expects_Home) ].

(** The low [k] bits of a mode. *)
Definition low_bits (k : N) (m : N) : N := N.land m (N.ones k).

(** The warnings [Walk] adds for one entry: the results of the six
    rules, in order. *)
Definition entry_warnings (o : Scanner) (pth : string) (st : os.fileStat) : list string :=
  flat_map (fun rc : rule * classifier =>
              compare pth (snd rc o pth (os.name st)) (os.mode st mod o01000)%N)
           policy.

Definition is_octal_digit (c : ascii) : bool :=
  (48 <=? N_of_ascii c)%N && (N_of_ascii c <=? 55)%N.

(** [NNNN]: exactly four octal digits. *)
Definition four_octal_digits (s : string) : bool :=
  (String.length s =? 4)%nat && forallb is_octal_digit (list_ascii_of_string s).

(** The number an octal numeral denotes. *)
Definition octal_value (s : string) : N :=
  fold_left (fun acc c => (8 * acc + (N_of_ascii c - 48))%N) (list_ascii_of_string s) 0%N.

(** The entries [filepath.Walk] hands to the callback with a non-nil
    [FileInfo], in order: a node, then, when it is a directory that
    could be read, the entries below it. *)
Fixpoint visited (p : string) (n : os.node) {struct n} : list (string * os.fileStat) :=
  match n with
  | os.Node info readdir children =>
      (p, info) ::
      (if os.IsDir info
       then match readdir with
            | Some _ => []
            | None => visited_names p children
            end
       else [])
  end
with visited_names (p : string) (names : os.entries) {struct names}
     : list (string * os.fileStat) :=
  match names with
  | os.NoMore => []
  | os.Vanished _ _ rest => visited_names p rest
  | os.Present name child rest =>
      (visited (filepath.Join p name) child ++ visited_names p rest)%list
  end.

(** No entry that the walk reaches fails its [Lstat]. *)
Fixpoint stable (n : os.node) {struct n} : bool :=
  match n with
  | os.Node info readdir children =>
      if os.IsDir info
      then match readdir with
           | Some _ => true
           | None => stable_names children
           end
      else true
  end
with stable_names (names : os.entries) {struct names} : bool :=
  match names with
  | os.NoMore => true
  | os.Vanished _ _ _ => false
  | os.Present _ child rest => stable child && stable_names rest
  end.

(** The words a pattern matches. *)
Inductive Lang : regexp.Regexp -> list ascii -> Prop :=
| L_Empty : Lang regexp.EmptyMatch []
| L_Literal (c : ascii) : Lang (regexp.Literal c) [c]
| L_Any (c : ascii) : c <> regexp.newline -> Lang regexp.AnyCharNotNL [c]
| L_Concat (r1 r2 : regexp.Regexp) (u v : list ascii) :
    Lang r1 u -> Lang r2 v -> Lang (regexp.Concat r1 r2) (u ++ v)%list
| L_AltL (r1 r2 : regexp.Regexp) (u : list ascii) :
    Lang r1 u -> Lang (regexp.Alternate r1 r2) u
| L_AltR (r1 r2 : regexp.Regexp) (u : list ascii) :
    Lang r2 u -> Lang (regexp.Alternate r1 r2) u
| L_Star0 (r : regexp.Regexp) : Lang (regexp.Star r) []
| L_StarS (r : regexp.Regexp) (u v : list ascii) :
    Lang r u -> Lang (regexp.Star r) v -> Lang (regexp.Star r) (u ++ v)%list
| L_Plus (r : regexp.Regexp) (u v : list ascii) :
    Lang r u -> Lang (regexp.Star r) v -> Lang (regexp.Plus r) (u ++ v)%list.

Definition not_newline (c : ascii) : bool := negb (Ascii.eqb c regexp.newline).

(** No byte of [s] is a newline. *)
Definition no_newline (s : string) : bool :=
  forallb not_newline (list_ascii_of_string s).

(** Every rule compares, and reports, the low [k] bits of the mode of
    the entry. *)
Definition compares_low_bits (k : N) : Prop :=
  Forall (fun rc : rule * classifier =>
            forall o pth st,
              fst rc o pth (Some st)
              = Done (compare pth (snd rc o pth (os.name st)) (low_bits k (os.mode st))))
         policy.

(** The twelve bits of a Unix mode that a [FileMode] stands for: the
    nine permission bits with the sticky, setgid and setuid bits above
    them. *)
Definition unix_mode_bits (m : os.FileMode) : N :=
  (low_bits 9 m
   + (if N.testbit m 20 then 512 else 0)
   + (if N.testbit m 22 then 1024 else 0)
   + (if N.testbit m 23 then 2048 else 0))%N.

(** The receiver after [ws] has been appended to its warnings. *)
Definition append_all (o : Scanner) (ws : list string) : Scanner :=
  {| Warnings := (Warnings o ++ ws)%list; Home := Home o |}.

(** The warnings of a list of entries, entry by entry. *)
Definition scan_entries (o : Scanner) (es : list (string * os.fileStat)) : list string :=
  flat_map (fun e => entry_warnings o (fst e) (snd e)) es.

(** The modes the policy expects. *)
Definition expected_modes : list N := [o0700; o0400; o0644; o0600; o0755].

(** A scanner as [NewScanner] builds it for a user whose home directory
    is [/home/u], and one for a user whose home directory is [/]. *)
Definition scanner_u : Scanner := {| Warnings := []; Home := "/home/u" |}.
Definition scanner_root : Scanner := {| Warnings := []; Home := "/" |}.

(* ================================================================= *)
(** ** Example file systems *)

Definition ENOENT (op p : string) : error :=
  fs_PathError op p "no such file or directory".
Definition EACCES (op p : string) : error :=
  fs_PathError op p "permission denied".

Definition file (name : string) (perm : N) : os.node :=
  os.Node {| os.name := name; os.mode := perm |} None os.NoMore.
Definition dir (name : string) (perm : N) (children : os.entries) : os.node :=
  os.Node {| os.name := name; os.mode := os.ModeDir + perm |} None children.
Definition unreadable_dir (name : string) (perm : N) (children : os.entries) : os.node :=
  os.Node {| os.name := name; os.mode := os.ModeDir + perm |}
          (Some (EACCES "open" name)) children.

(** A file system with nothing but the tree [n] at [root]. *)
Definition only (root : string) (n : os.node) (p : string) : error + os.node :=
  if (p =? root)%string then inr n else inl (ENOENT "lstat" p).

(** [.ssh/id_test] with mode [0644], in a directory of mode [0755]. *)
Definition tree_id_test_0644 : os.node :=
  dir "." o0755
    (os.Present ".ssh" (dir ".ssh" o0700
       (os.Present "id_test" (file "id_test" o0644) os.NoMore))
     os.NoMore).

(** [.ssh] with mode [0700] and [.ssh/id_test] with mode [0600]. *)
Definition tree_id_test_0600 : os.node :=
  dir "." o0755
    (os.Present ".ssh" (dir ".ssh" o0700
       (os.Present "id_test" (file "id_test" o0600) os.NoMore))
     os.NoMore).

(** A directory with [.ssh] (mode [0755]) holding [id_test] (mode
    [0644]), then [private], a directory of mode [0000] that cannot be
    read and holds an [authorized_keys] of mode [0644], then [work],
    holding a [known_hosts] of mode [0600]. *)
Definition tree_unreadable : os.node :=
  dir "." o0755
    (os.Present ".ssh" (dir ".ssh" o0755
       (os.Present "id_test" (file "id_test" o0644) os.NoMore))
    (os.Present "private" (unreadable_dir "private" 0
       (os.Present "authorized_keys" (file "authorized_keys" o0644) os.NoMore))
    (os.Present "work" (dir "work" o0755
       (os.Present "known_hosts" (file "known_hosts" o0600) os.NoMore))
     os.NoMore))).

(** A directory whose entry [gone] was removed between the read of the
    directory and its [Lstat]. *)
Definition tree_vanished : os.node :=
  dir "." o0755
    (os.Present ".ssh" (dir ".ssh" o0755 os.NoMore)
    (os.Vanished "gone" (ENOENT "lstat" "gone")
     os.NoMore)).

(** A traversal that visits the root and then reports [io.EOF]. *)
Definition host_EOF (home : string) (n : os.node) : Host :=
  {| UserHomeDir := inr home;
     filepath_Walk := fun root fn =>
       fn root (Some (os.info_of n)) None ;;; ret (Some io.EOF) |}.

(* ================================================================= *)
(** ** Paths of the walk *)

(** The name of a directory entry: not empty, without a separator, and
    neither [.] nor [..]. *)
Definition simple_name (c : string) : bool :=
  negb (c =? "")%string
  && forallb not_separator (list_ascii_of_string c)
  && negb (c =? ".")%string
  && negb (c =? "..")%string.

(** Names joined by single separators. *)
Fixpoint join_names (cs : list string) : string :=
  match cs with
  | [] => ""
  | c :: rest =>
      match rest with
      | [] => c
      | _ => c ++ "/" ++ join_names rest
      end
  end.

(** A path as [filepath.Clean] leaves it when no [.] or [..] is
    involved: the names [cs] joined by separators, after a separator
    when the path is rooted. *)
Definition clean_path (rooted : bool) (cs : list string) : string :=
  (if rooted then "/" else "") ++ join_names cs.

(** The separator [Clean] writes before an element, unless the buffer
    holds nothing yet (or only the leading separator). *)
Definition with_separator (rooted : bool) (out : list ascii) : list ascii :=
  if (rooted && negb (List.length out =? 1)%nat)
     || (negb rooted && negb (List.length out =? 0)%nat)
  then "/"%char :: out else out.

(** The bytes of the names [cs], each after a separator. *)
Definition tail_chars (cs : list string) : list ascii :=
  flat_map (fun c => "/"%char :: list_ascii_of_string c) cs.

(** The bytes of [clean_path rooted cs]. *)
Definition path_chars (rooted : bool) (cs : list string) : list ascii :=
  ((if rooted then ["/"%char] else [])
   ++ match cs with
      | [] => []
      | c :: rest => list_ascii_of_string c ++ tail_chars rest
      end)%list.

(** The bytes of [clean_path rooted (cs ++ [name])] that come before
    the name. *)
Definition before_name (rooted : bool) (cs : list string) : list ascii :=
  match cs with
  | [] => if rooted then ["/"%char] else []
  | _ => (path_chars rooted cs ++ ["/"%char])%list
  end.

(** A directory of mode [0755] that holds [.ssh], of mode [0700], which
    holds the one file [name] of mode [m]. *)
Definition tree_with_key (name : string) (m : N) : os.node :=
  dir "." o0755
    (os.Present ".ssh" (dir ".ssh" o0700
       (os.Present name (file name m) os.NoMore))
     os.NoMore).

(* ================================================================= *)
(** * Properties *)

(** ** Strings and formatting *)

Lemma append_nil_r (s : string) : s ++ "" = s.
Proof. induction s as [| c s IH]; simpl; [reflexivity | now rewrite IH]. Qed.

Lemma Sprintf_0700 (pth : string) (m : N) :
  fmt.Sprintf "%s: expected chmod 0700, got %04o" [fmt.Str pth; fmt.Uint m]
  = discrepancy pth o0700 m.
Proof. unfold discrepancy. cbn. now rewrite append_nil_r. Qed.

Lemma Sprintf_0400 (pth : string) (m : N) :
  fmt.Sprintf "%s: expected chmod 0400, got %04o" [fmt.Str pth; fmt.Uint m]
  = discrepancy pth o0400 m.
Proof. unfold discrepancy. cbn. now rewrite append_nil_r. Qed.

Lemma Sprintf_0644 (pth : string) (m : N) :
  fmt.Sprintf "%s: expected chmod 0644, got %04o" [fmt.Str pth; fmt.Uint m]
  = discrepancy pth o0644 m.
Proof. unfold discrepancy. cbn. now rewrite append_nil_r. Qed.

Lemma Sprintf_0600 (pth : string) (m : N) :
  fmt.Sprintf "%s: expected chmod 0600, got %04o" [fmt.Str pth; fmt.Uint m]
  = discrepancy pth o0600 m.
Proof. unfold discrepancy. cbn. now rewrite append_nil_r. Qed.

Lemma Sprintf_0755 (pth : string) (m : N) :
  fmt.Sprintf "%s: expected chmod 0755, got %04o" [fmt.Str pth; fmt.Uint m]
  = discrepancy pth o0755 m.
Proof. unfold discrepancy. cbn. now rewrite append_nil_r. Qed.

(** ** Each rule against its row of the policy *)

Ltac rule_cases :=
  intros;
  cbv beta iota zeta delta
    [ScanSSH ScanSSHConfig ScanSSHKeys ScanSSHAuthorizedKeys ScanSSHKnownHosts
     ScanHome expects_SSH expects_SSHConfig expects_SSHKeys
     expects_SSHAuthorizedKeys expects_SSHKnownHosts expects_Home
     parent_is_ssh compare obind os.Name os.Mode];
  repeat match goal with
         | |- context [String.eqb ?a ?b] => destruct (String.eqb a b); cbn [andb negb]
         | |- context [regexp.MatchString ?r ?s] =>
             destruct (regexp.MatchString r s); cbn [andb negb]
         | |- context [N.eqb ?a ?b] => destruct (N.eqb a b); cbn [andb negb]
         end;
  rewrite ?Sprintf_0700, ?Sprintf_0400, ?Sprintf_0644, ?Sprintf_0600, ?Sprintf_0755;
  try reflexivity.

Lemma ScanSSH_policy (o : Scanner) (pth : string) (st : os.fileStat) :
  ScanSSH o pth (Some st)
  = Done (compare pth (expects_SSH o pth (os.name st)) (os.mode st mod o01000)%N).
Proof. rule_cases. Qed.

Lemma ScanSSHConfig_policy (o : Scanner) (pth : string) (st : os.fileStat) :
  ScanSSHConfig o pth (Some st)
  = Done (compare pth (expects_SSHConfig o pth (os.name st)) (os.mode st mod o01000)%N).
Proof. rule_cases. Qed.

Lemma ScanSSHKeys_policy (o : Scanner) (pth : string) (st : os.fileStat) :
  ScanSSHKeys o pth (Some st)
  = Done (compare pth (expects_SSHKeys o pth (os.name st)) (os.mode st mod o01000)%N).
Proof. rule_cases. Qed.

Lemma ScanSSHAuthorizedKeys_policy (o : Scanner) (pth : string) (st : os.fileStat) :
  ScanSSHAuthorizedKeys o pth (Some st)
  = Done (compare pth (expects_SSHAuthorizedKeys o pth (os.name st)) (os.mode st mod o01000)%N).
Proof. rule_cases. Qed.

Lemma ScanSSHKnownHosts_policy (o : Scanner) (pth : string) (st : os.fileStat) :
  ScanSSHKnownHosts o pth (Some st)
  = Done (compare pth (expects_SSHKnownHosts o pth (os.name st)) (os.mode st mod o01000)%N).
Proof. rule_cases. Qed.

Lemma ScanHome_policy (o : Scanner) (pth : string) (st : os.fileStat) :
  ScanHome o pth (Some st)
  = Done (compare pth (expects_Home o pth (os.name st)) (os.mode st mod o01000)%N).
Proof. rule_cases. Qed.

(** Every rule of the source computes its row of the policy on the mode
    modulo [01000]. *)
Lemma policy_sound :
  Forall (fun rc : rule * classifier =>
            forall o pth st,
              fst rc o pth (Some st)
              = Done (compare pth (snd rc o pth (os.name st)) (os.mode st mod o01000)%N))
         policy.
Proof.
  unfold policy.
  repeat constructor; cbn [fst snd]; intros.
  - apply ScanSSH_policy.
  - apply ScanSSHConfig_policy.
  - apply ScanSSHKeys_policy.
  - apply ScanSSHAuthorizedKeys_policy.
  - apply ScanSSHKnownHosts_policy.
  - apply ScanHome_policy.
Qed.

(** A rule that is handed the nil [FileInfo] panics at [info.Name()]. *)
Lemma rules_nil_panic :
  Forall (fun rc : rule * classifier =>
            forall o pth, fst rc o pth None = Panic nil_dereference)
         policy.
Proof. unfold policy. repeat constructor. Qed.

(** ** Modes *)

Lemma mod_o01000_low_bits (m : N) : (m mod o01000)%N = low_bits 9 m.
Proof.
  unfold low_bits, o01000.
  rewrite N.land_ones. reflexivity.
Qed.

Lemma mod_o01000_bound (m : N) : (m mod o01000 <= 511)%N.
Proof.
  unfold o01000.
  pose proof (N.mod_upper_bound m 512). lia.
Qed.

Lemma four_octal_digits_small (u : N) :
  (u <= 511)%N ->
  four_octal_digits (fmt.verb_04o u) = true /\ octal_value (fmt.verb_04o u) = u.
Proof.
  intros Hu.
  assert (H : forallb (fun n => four_octal_digits (fmt.verb_04o (N.of_nat n))
                                && (octal_value (fmt.verb_04o (N.of_nat n)) =? N.of_nat n)%N)
                      (seq 0 512) = true) by (vm_compute; reflexivity).
  rewrite forallb_forall in H.
  specialize (H (N.to_nat u)).
  rewrite N2Nat.id in H.
  assert (Hin : In (N.to_nat u) (seq 0 512)) by (apply in_seq; lia).
  apply H in Hin. apply andb_true_iff in Hin. destruct Hin as [H4 Hv].
  apply N.eqb_eq in Hv. split; assumption.
Qed.

(** ** Patterns *)

Ltac inv H := inversion H; subst; clear H.

Ltac split_nil :=
  match goal with
  | H : (?u ++ ?v)%list = [] |- _ =>
      apply app_eq_nil in H; destruct H; subst
  | H : [] = (?u ++ ?v)%list |- _ =>
      symmetry in H; apply app_eq_nil in H; destruct H; subst
  end.

(** A word [c :: s] split in two: either the first part is empty, or it
    starts with [c]. *)
Ltac split_cons u :=
  match goal with
  | H : (u ++ ?v)%list = ?c :: ?s |- _ =>
      destruct u; simpl in H; [subst | injection H as ? ?; subst]
  | H : ?c :: ?s = (u ++ ?v)%list |- _ =>
      symmetry in H; destruct u; simpl in H; [subst | injection H as ? ?; subst]
  end.

Lemma nullable_Lang (r : regexp.Regexp) : regexp.nullable r = true <-> Lang r [].
Proof.
  induction r; simpl; split; intros H;
    try discriminate; try solve [constructor]; try solve [inversion H].
  - apply andb_true_iff in H. destruct H as [H1 H2].
    change (@nil ascii) with (@nil ascii ++ [])%list.
    constructor; [now apply IHr1 | now apply IHr2].
  - inv H. split_nil.
    apply andb_true_iff. split; [now apply IHr1 | now apply IHr2].
  - apply orb_true_iff in H. destruct H as [H | H].
    + apply L_AltL. now apply IHr1.
    + apply L_AltR. now apply IHr2.
  - apply orb_true_iff.
    inv H; [left; now apply IHr1 | right; now apply IHr2].
  - change (@nil ascii) with (@nil ascii ++ [])%list.
    constructor; [now apply IHr | constructor].
  - inv H. split_nil. now apply IHr.
Qed.

(** A non-empty word of [r*] starts with a non-empty word of [r]. *)
Lemma Lang_Star_cons (r : regexp.Regexp) (c : ascii) (s : list ascii) :
  Lang (regexp.Star r) (c :: s) ->
  exists u v, s = (u ++ v)%list /\ Lang r (c :: u) /\ Lang (regexp.Star r) v.
Proof.
  intros H.
  remember (regexp.Star r) as rs eqn:Hrs.
  remember (c :: s) as w eqn:Hw.
  revert c s Hw.
  induction H as [| | | | | | | r' u v Hu _ Hv IHv |]; intros c0 s0 Hw;
    try discriminate.
  injection Hrs as ->.
  destruct u as [| a u].
  - simpl in Hw. now apply IHv.
  - simpl in Hw. injection Hw as Ha Hs. subst.
    exists u, v. repeat split; assumption.
Qed.

Lemma Lang_cons_app (r1 r2 : regexp.Regexp) (c : ascii) (u v : list ascii) :
  Lang r1 (c :: u) -> Lang r2 v -> Lang (regexp.Concat r1 r2) (c :: u ++ v)%list.
Proof.
  intros H1 H2. change (c :: u ++ v)%list with ((c :: u) ++ v)%list.
  now constructor.
Qed.

Lemma deriv_Lang (r : regexp.Regexp) (c : ascii) (s : list ascii) :
  Lang (regexp.deriv c r) s <-> Lang r (c :: s).
Proof.
  revert s.
  induction r as [| | d | | r1 IH1 r2 IH2 | r1 IH1 r2 IH2 | r IH | r IH];
    intros s; simpl; split; intros H; try solve [inversion H].
  - destruct (Ascii.eqb_spec c d) as [-> | Hne]; inv H. constructor.
  - inv H. rewrite Ascii.eqb_refl. constructor.
  - destruct (Ascii.eqb_spec c regexp.newline) as [-> | Hne]; inv H.
    now constructor.
  - inv H.
    destruct (Ascii.eqb_spec c regexp.newline) as [-> | _]; [contradiction | constructor].
  - inv H.
    + match goal with H1 : Lang (regexp.Concat _ _) _ |- _ => inv H1 end.
      apply Lang_cons_app; [now apply IH1 | assumption].
    + destruct (regexp.nullable r1) eqn:Hn;
        [| match goal with H2 : Lang regexp.NoMatch _ |- _ => inversion H2 end].
      change (c :: s) with ([] ++ c :: s)%list.
      constructor; [now apply nullable_Lang | now apply IH2].
  - inv H.
    match goal with Hu : Lang r1 ?u |- _ => split_cons u end.
    + apply L_AltR.
      match goal with Hu : Lang r1 [] |- _ => apply nullable_Lang in Hu; rewrite Hu end.
      now apply IH2.
    + apply L_AltL. constructor; [now apply IH1 | assumption].
  - inv H; [apply L_AltL; now apply IH1 | apply L_AltR; now apply IH2].
  - inv H; [apply L_AltL; now apply IH1 | apply L_AltR; now apply IH2].
  - inv H.
    match goal with
    | Hu : Lang (regexp.deriv c r) ?u, Hv : Lang (regexp.Star r) ?v |- _ =>
        change (c :: u ++ v)%list with ((c :: u) ++ v)%list;
        constructor; [now apply IH | assumption]
    end.
  - apply Lang_Star_cons in H. destruct H as (u & v & -> & Hu & Hv).
    constructor; [now apply IH | assumption].
  - inv H.
    match goal with
    | Hu : Lang (regexp.deriv c r) ?u, Hv : Lang (regexp.Star r) ?v |- _ =>
        change (c :: u ++ v)%list with ((c :: u) ++ v)%list;
        constructor; [now apply IH | assumption]
    end.
  - inv H.
    match goal with Hu : Lang r ?u |- _ => split_cons u end.
    + match goal with Hv : Lang (regexp.Star r) (c :: s) |- _ =>
        apply Lang_Star_cons in Hv; destruct Hv as (u' & v' & -> & Hu' & Hv')
      end.
      constructor; [now apply IH | assumption].
    + constructor; [now apply IH | assumption].
Qed.

(** The matcher decides the words of the pattern. *)
Lemma matches_Lang (r : regexp.Regexp) (s : list ascii) :
  regexp.matches r s = true <-> Lang r s.
Proof.
  revert r. induction s as [| c s IH]; intros r; simpl.
  - apply nullable_Lang.
  - rewrite IH. apply deriv_Lang.
Qed.

Lemma Lang_Lit (s : string) (l : list ascii) :
  Lang (regexp.Lit s) l <-> l = list_ascii_of_string s.
Proof.
  revert l. induction s as [| c s IH]; intros l; simpl; split; intros H.
  - now inv H.
  - subst. constructor.
  - inv H.
    match goal with
    | H1 : Lang (regexp.Literal c) _, H2 : Lang (regexp.Lit s) _ |- _ =>
        inv H1; apply IH in H2; now subst
    end.
  - subst. change (c :: list_ascii_of_string s) with ([c] ++ list_ascii_of_string s)%list.
    constructor; [constructor | now apply IH].
Qed.

Lemma Lang_Star_Any (l : list ascii) :
  Lang (regexp.Star regexp.AnyCharNotNL) l <-> forallb not_newline l = true.
Proof.
  split.
  - intros H. remember (regexp.Star regexp.AnyCharNotNL) as r eqn:Hr.
    induction H as [| | | | | | | r' u v Hu _ Hv IHv |]; try discriminate.
    + reflexivity.
    + injection Hr as ->. inv Hu. simpl.
      rewrite IHv by reflexivity.
      unfold not_newline.
      destruct (Ascii.eqb_spec c regexp.newline); [contradiction | reflexivity].
  - induction l as [| c l IH]; simpl; intros H.
    + constructor.
    + apply andb_true_iff in H. destruct H as [Hc Hl].
      change (c :: l) with ([c] ++ l)%list.
      constructor; [| now apply IH].
      constructor. unfold not_newline in Hc.
      destruct (Ascii.eqb_spec c regexp.newline); [discriminate | assumption].
Qed.

Lemma Lang_Plus_Any (l : list ascii) :
  Lang (regexp.Plus regexp.AnyCharNotNL) l <-> l <> [] /\ forallb not_newline l = true.
Proof.
  split.
  - intros H. inv H.
    match goal with
    | Hu : Lang regexp.AnyCharNotNL _, Hv : Lang (regexp.Star _) _ |- _ =>
        inv Hu; apply Lang_Star_Any in Hv
    end.
    split; [discriminate |].
    simpl. apply andb_true_iff. split; [| assumption].
    unfold not_newline.
    destruct (Ascii.eqb_spec c regexp.newline); [contradiction | reflexivity].
  - intros [Hne H]. destruct l as [| c l]; [contradiction |].
    simpl in H. apply andb_true_iff in H. destruct H as [Hc Hl].
    change (c :: l) with ([c] ++ l)%list.
    constructor; [| now apply Lang_Star_Any].
    constructor. unfold not_newline in Hc.
    destruct (Ascii.eqb_spec c regexp.newline); [discriminate | assumption].
Qed.

Lemma list_ascii_of_string_app (a b : string) :
  list_ascii_of_string (a ++ b) = (list_ascii_of_string a ++ list_ascii_of_string b)%list.
Proof. induction a as [| c a IH]; simpl; [reflexivity | now rewrite IH]. Qed.

Lemma string_of_list_ascii_app (u v : list ascii) :
  string_of_list_ascii (u ++ v)%list = string_of_list_ascii u ++ string_of_list_ascii v.
Proof. induction u as [| c u IH]; simpl; [reflexivity | now rewrite IH]. Qed.

(** [^id_.+$]: the name is [id_] followed by at least one byte, none of
    them a newline. *)
Lemma SSHKeyPattern_spec (name : string) :
  regexp.MatchString SSHKeyPattern name = true
  <-> exists rest, name = "id_" ++ rest /\ rest <> "" /\ no_newline rest = true.
Proof.
  unfold regexp.MatchString, SSHKeyPattern. rewrite matches_Lang. split.
  - intros H. inv H.
    match goal with
    | Hu : Lang _ ?u, Hv : Lang (regexp.Plus _) ?v |- _ =>
        apply (Lang_Lit "id_") in Hu; apply Lang_Plus_Any in Hv;
        destruct Hv as [Hne Hnl]; exists (string_of_list_ascii v)
    end.
    subst. repeat split.
    + rewrite <- (string_of_list_ascii_of_string name).
      match goal with H : _ = list_ascii_of_string name |- _ => rewrite <- H end.
      reflexivity.
    + intros Heq. apply Hne.
      rewrite <- (list_ascii_of_string_of_list_ascii v), Heq. reflexivity.
    + unfold no_newline. now rewrite list_ascii_of_string_of_list_ascii.
  - intros (rest & -> & Hne & Hnl).
    rewrite list_ascii_of_string_app.
    constructor; [now apply Lang_Lit |].
    apply Lang_Plus_Any. split; [| exact Hnl].
    intros Heq. apply Hne.
    rewrite <- (string_of_list_ascii_of_string rest), Heq. reflexivity.
Qed.

(** [^id_.+\.pub$]: the name is [id_], then at least one byte, none of
    them a newline, then [.pub]. *)
Lemma SSHPublicKeyPattern_spec (name : string) :
  regexp.MatchString SSHPublicKeyPattern name = true
  <-> exists stem, name = "id_" ++ stem ++ ".pub" /\ stem <> "" /\ no_newline stem = true.
Proof.
  unfold regexp.MatchString, SSHPublicKeyPattern. rewrite matches_Lang. split.
  - intros H. inv H.
    match goal with
    | Hu : Lang _ ?u, Hv : Lang (regexp.Concat (regexp.Plus _) _) _ |- _ =>
        apply (Lang_Lit "id_") in Hu; inv Hv
    end.
    match goal with
    | Hv : Lang (regexp.Plus _) ?v, Hw : Lang (regexp.Concat (regexp.Literal _) _) _ |- _ =>
        apply (Lang_Lit ".pub") in Hw; apply Lang_Plus_Any in Hv;
        destruct Hv as [Hne Hnl]; exists (string_of_list_ascii v);
        subst; repeat split;
        [ rewrite <- (string_of_list_ascii_of_string name);
          match goal with H : _ = list_ascii_of_string name |- _ => rewrite <- H end;
          rewrite !string_of_list_ascii_app; reflexivity
        | intros Heq; apply Hne;
          rewrite <- (list_ascii_of_string_of_list_ascii v), Heq; reflexivity
        | unfold no_newline; now rewrite list_ascii_of_string_of_list_ascii ]
    end.
  - intros (stem & -> & Hne & Hnl).
    rewrite !list_ascii_of_string_app.
    constructor; [now apply Lang_Lit |].
    constructor; [| now apply Lang_Lit].
    apply Lang_Plus_Any. split; [| exact Hnl].
    intros Heq. apply Hne.
    rewrite <- (string_of_list_ascii_of_string stem), Heq. reflexivity.
Qed.

(** A name that [SSHPublicKeyPattern] matches is matched by
    [SSHKeyPattern] too. *)
Lemma public_key_is_key (name : string) :
  regexp.MatchString SSHPublicKeyPattern name = true ->
  regexp.MatchString SSHKeyPattern name = true.
Proof.
  intros H. apply SSHPublicKeyPattern_spec in H.
  destruct H as (stem & -> & Hne & Hnl).
  apply SSHKeyPattern_spec. exists (stem ++ ".pub"). repeat split.
  - destruct stem; [contradiction | discriminate].
  - unfold no_newline in *. rewrite list_ascii_of_string_app, forallb_app, Hnl.
    reflexivity.
Qed.

(** ** The rules, one by one *)

Lemma compare_expected (pth : string) (e m : N) :
  (m = e -> compare pth (Some e) m = [])
  /\ (m <> e -> compare pth (Some e) m = [discrepancy pth e m]).
Proof.
  unfold compare. destruct (N.eqb_spec m e); split; intros H;
    try reflexivity; contradiction.
Qed.

(** [NewScanner] stores what [os.UserHomeDir] returns, once; for an
    entry whose base name equals that whole string the home-directory
    rule fires: permission bits [0755] give no discrepancy, any other
    value gives exactly one, which expects [0755]. *)
Lemma ScanHome_fires_on_home_name
  (h : Host) (home : string) (o : Scanner) (pth : string) (st : os.fileStat) :
  UserHomeDir h = inr home ->
  Home o = home ->
  os.name st = home ->
  NewScanner h = inr {| Warnings := []; Home := home |}
  /\ ((os.mode st mod o01000 = o0755)%N -> ScanHome o pth (Some st) = Done [])
  /\ ((os.mode st mod o01000 <> o0755)%N ->
      ScanHome o pth (Some st)
      = Done [pth ++ ": expected chmod 0755, got " ++ fmt.verb_04o (os.mode st mod o01000)]).
Proof.
  intros Hh Ho Hn. split.
  - unfold NewScanner. now rewrite Hh.
  - rewrite ScanHome_policy. unfold expects_Home.
    rewrite Ho, Hn, String.eqb_refl.
    destruct (compare_expected pth o0755 (os.mode st mod o01000)) as [Heq Hne].
    split; intros H.
    + now rewrite Heq.
    + now rewrite Hne.
Qed.

Lemma ScanHome_fires_on_home_name_witness :
  NewScanner (go_host (inr "/") (fun _ => inl io_EOF)) = inr scanner_root
  /\ ScanHome scanner_root "/" (Some {| os.name := "/"; os.mode := os.ModeDir + 493 |})
     = Done []
  /\ ScanHome scanner_root "/" (Some {| os.name := "/"; os.mode := os.ModeDir + 511 |})
     = Done ["/: expected chmod 0755, got 0777"].
Proof.
  pose proof (ScanHome_fires_on_home_name
                (go_host (inr "/") (fun _ => inl io_EOF)) "/" scanner_root "/"
                {| os.name := "/"; os.mode := os.ModeDir + 493 |}
                eq_refl eq_refl eq_refl) as [H1 [H2 _]].
  pose proof (ScanHome_fires_on_home_name
                (go_host (inr "/") (fun _ => inl io_EOF)) "/" scanner_root "/"
                {| os.name := "/"; os.mode := os.ModeDir + 511 |}
                eq_refl eq_refl eq_refl) as [_ [_ H3]].
  split; [exact H1 | split].
  - apply H2. reflexivity.
  - apply H3. vm_compute. discriminate.
Defined.

(** C5.  For a file whose parent directory is called [.ssh]: when its
    name matches [^id_.+$] and not [^id_.+\.pub$], permission bits
    other than [0600] give exactly one discrepancy, which expects
    [0600]; when its name matches [^id_.+\.pub$], permission bits other
    than [0644] give exactly one discrepancy, which expects [0644]; the
    expected bits give none. *)
Theorem ScanSSHKeys_private_and_public
  (o : Scanner) (pth : string) (st : os.fileStat) :
  path.Base (filepath.Dir pth) = ".ssh" ->
  (regexp.MatchString SSHKeyPattern (os.name st) = true ->
   regexp.MatchString SSHPublicKeyPattern (os.name st) = false ->
   ((os.mode st mod o01000 = o0600)%N -> ScanSSHKeys o pth (Some st) = Done [])
   /\ ((os.mode st mod o01000 <> o0600)%N ->
       ScanSSHKeys o pth (Some st)
       = Done [pth ++ ": expected chmod 0600, got " ++ fmt.verb_04o (os.mode st mod o01000)]))
  /\ (regexp.MatchString SSHPublicKeyPattern (os.name st) = true ->
      ((os.mode st mod o01000 = o0644)%N -> ScanSSHKeys o pth (Some st) = Done [])
      /\ ((os.mode st mod o01000 <> o0644)%N ->
          ScanSSHKeys o pth (Some st)
          = Done [pth ++ ": expected chmod 0644, got " ++ fmt.verb_04o (os.mode st mod o01000)])).
Proof.
  intros Hp. rewrite ScanSSHKeys_policy. unfold expects_SSHKeys, parent_is_ssh.
  rewrite Hp, String.eqb_refl. split.
  - intros Hk Hpub. rewrite Hk, Hpub. cbn [andb].
    destruct (compare_expected pth o0600 (os.mode st mod o01000)) as [Heq Hne].
    split; intros H; [now rewrite Heq | now rewrite Hne].
  - intros Hpub. rewrite (public_key_is_key _ Hpub), Hpub. cbn [andb].
    destruct (compare_expected pth o0644 (os.mode st mod o01000)) as [Heq Hne].
    split; intros H; [now rewrite Heq | now rewrite Hne].
Qed.

Lemma ScanSSHKeys_private_and_public_witness :
  ScanSSHKeys scanner_u ".ssh/id_test" (Some {| os.name := "id_test"; os.mode := 420 |})
  = Done [".ssh/id_test: expected chmod 0600, got 0644"]
  /\ ScanSSHKeys scanner_u ".ssh/id_test" (Some {| os.name := "id_test"; os.mode := 384 |})
     = Done []
  /\ ScanSSHKeys scanner_u "/home/u/.ssh/id_rsa.pub"
       (Some {| os.name := "id_rsa.pub"; os.mode := 384 |})
     = Done ["/home/u/.ssh/id_rsa.pub: expected chmod 0644, got 0600"]
  /\ ScanSSHKeys scanner_u "/home/u/.ssh/id_rsa.pub"
       (Some {| os.name := "id_rsa.pub"; os.mode := 420 |})
     = Done [].
Proof.
  pose proof (ScanSSHKeys_private_and_public scanner_u ".ssh/id_test"
                {| os.name := "id_test"; os.mode := 420 |} eq_refl) as [A _].
  pose proof (ScanSSHKeys_private_and_public scanner_u ".ssh/id_test"
                {| os.name := "id_test"; os.mode := 384 |} eq_refl) as [B _].
  pose proof (ScanSSHKeys_private_and_public scanner_u "/home/u/.ssh/id_rsa.pub"
                {| os.name := "id_rsa.pub"; os.mode := 384 |} eq_refl) as [_ C].
  pose proof (ScanSSHKeys_private_and_public scanner_u "/home/u/.ssh/id_rsa.pub"
                {| os.name := "id_rsa.pub"; os.mode := 420 |} eq_refl) as [_ D].
  split; [| split; [| split]].
  - apply (proj2 (A eq_refl eq_refl)). vm_compute. discriminate.
  - apply (proj1 (B eq_refl eq_refl)). reflexivity.
  - apply (proj2 (C eq_refl)). vm_compute. discriminate.
  - apply (proj1 (D eq_refl)). reflexivity.
Defined.

(** C6.  For an entry whose base name is [.ssh], a directory or not
    (the rule reads the name and the permission bits only), permission
    bits [0700] give no discrepancy and any other value gives exactly
    one, which expects [0700]. *)
Theorem ScanSSH_by_name (o : Scanner) (pth : string) (st : os.fileStat) :
  os.name st = ".ssh" ->
  ((os.mode st mod o01000 = o0700)%N -> ScanSSH o pth (Some st) = Done [])
  /\ ((os.mode st mod o01000 <> o0700)%N ->
      ScanSSH o pth (Some st)
      = Done [pth ++ ": expected chmod 0700, got " ++ fmt.verb_04o (os.mode st mod o01000)]).
Proof.
  intros Hn. rewrite ScanSSH_policy. unfold expects_SSH.
  rewrite Hn, String.eqb_refl.
  destruct (compare_expected pth o0700 (os.mode st mod o01000)) as [Heq Hne].
  split; intros H; [now rewrite Heq | now rewrite Hne].
Qed.

Lemma ScanSSH_by_name_witness :
  (os.IsDir {| os.name := ".ssh"; os.mode := os.ModeDir + 448 |} = true
   /\ ScanSSH scanner_u "/home/u/.ssh"
        (Some {| os.name := ".ssh"; os.mode := os.ModeDir + 448 |}) = Done [])
  /\ (os.IsDir {| os.name := ".ssh"; os.mode := 420 |} = false
      /\ ScanSSH scanner_u "notes/.ssh" (Some {| os.name := ".ssh"; os.mode := 420 |})
         = Done ["notes/.ssh: expected chmod 0700, got 0644"]).
Proof.
  split; (split; [reflexivity |]).
  - apply (proj1 (ScanSSH_by_name scanner_u "/home/u/.ssh"
                    {| os.name := ".ssh"; os.mode := os.ModeDir + 448 |} eq_refl)).
    reflexivity.
  - apply (proj2 (ScanSSH_by_name scanner_u "notes/.ssh"
                    {| os.name := ".ssh"; os.mode := 420 |} eq_refl)).
    vm_compute. discriminate.
Defined.

(** C7.  For an entry called [config]: when its parent directory is
    called [.ssh], permission bits [0400] give no discrepancy and any
    other value gives exactly one, which expects [0400]; when its parent
    directory is not called [.ssh], the rule gives none, whatever the
    mode. *)
Theorem ScanSSHConfig_under_ssh_only (o : Scanner) (pth : string) (st : os.fileStat) :
  os.name st = "config" ->
  (path.Base (filepath.Dir pth) = ".ssh" ->
   ((os.mode st mod o01000 = o0400)%N -> ScanSSHConfig o pth (Some st) = Done [])
   /\ ((os.mode st mod o01000 <> o0400)%N ->
       ScanSSHConfig o pth (Some st)
       = Done [pth ++ ": expected chmod 0400, got " ++ fmt.verb_04o (os.mode st mod o01000)]))
  /\ (path.Base (filepath.Dir pth) <> ".ssh" -> ScanSSHConfig o pth (Some st) = Done []).
Proof.
  intros Hn. rewrite ScanSSHConfig_policy. unfold expects_SSHConfig, parent_is_ssh.
  rewrite Hn, String.eqb_refl. cbn [andb]. split.
  - intros Hp. rewrite Hp, String.eqb_refl.
    destruct (compare_expected pth o0400 (os.mode st mod o01000)) as [Heq Hne].
    split; intros H; [now rewrite Heq | now rewrite Hne].
  - intros Hp. apply String.eqb_neq in Hp. now rewrite Hp.
Qed.

Lemma ScanSSHConfig_under_ssh_only_witness :
  ScanSSHConfig scanner_u "/home/u/.ssh/config"
    (Some {| os.name := "config"; os.mode := 256 |}) = Done []
  /\ ScanSSHConfig scanner_u "/home/u/.ssh/config"
       (Some {| os.name := "config"; os.mode := 420 |})
     = Done ["/home/u/.ssh/config: expected chmod 0400, got 0644"]
  /\ ScanSSHConfig scanner_u "/etc/app/config"
       (Some {| os.name := "config"; os.mode := 511 |}) = Done [].
Proof.
  split; [| split].
  - apply (proj1 (proj1 (ScanSSHConfig_under_ssh_only scanner_u "/home/u/.ssh/config"
                           {| os.name := "config"; os.mode := 256 |} eq_refl) eq_refl)).
    reflexivity.
  - apply (proj2 (proj1 (ScanSSHConfig_under_ssh_only scanner_u "/home/u/.ssh/config"
                           {| os.name := "config"; os.mode := 420 |} eq_refl) eq_refl)).
    vm_compute. discriminate.
  - apply (proj2 (ScanSSHConfig_under_ssh_only scanner_u "/etc/app/config"
                    {| os.name := "config"; os.mode := 511 |} eq_refl)).
    vm_compute. discriminate.
Defined.

(** C8.  For an entry called [authorized_keys], whatever its parent
    directory, permission bits other than [0600] give a discrepancy that
    expects [0600] and [0600] gives none; for an entry called
    [known_hosts], permission bits other than [0644] give a discrepancy
    that expects [0644] and [0644] gives none. *)
Theorem authorized_keys_and_known_hosts_anywhere
  (o : Scanner) (pth : string) (st : os.fileStat) :
  (os.name st = "authorized_keys" ->
   ((os.mode st mod o01000 = o0600)%N -> ScanSSHAuthorizedKeys o pth (Some st) = Done [])
   /\ ((os.mode st mod o01000 <> o0600)%N ->
       ScanSSHAuthorizedKeys o pth (Some st)
       = Done [pth ++ ": expected chmod 0600, got " ++ fmt.verb_04o (os.mode st mod o01000)]))
  /\ (os.name st = "known_hosts" ->
      ((os.mode st mod o01000 = o0644)%N -> ScanSSHKnownHosts o pth (Some st) = Done [])
      /\ ((os.mode st mod o01000 <> o0644)%N ->
          ScanSSHKnownHosts o pth (Some st)
          = Done [pth ++ ": expected chmod 0644, got " ++ fmt.verb_04o (os.mode st mod o01000)])).
Proof.
  split; intros Hn.
  - rewrite ScanSSHAuthorizedKeys_policy. unfold expects_SSHAuthorizedKeys.
    rewrite Hn, String.eqb_refl.
    destruct (compare_expected pth o0600 (os.mode st mod o01000)) as [Heq Hne].
    split; intros H; [now rewrite Heq | now rewrite Hne].
  - rewrite ScanSSHKnownHosts_policy. unfold expects_SSHKnownHosts.
    rewrite Hn, String.eqb_refl.
    destruct (compare_expected pth o0644 (os.mode st mod o01000)) as [Heq Hne].
    split; intros H; [now rewrite Heq | now rewrite Hne].
Qed.

Lemma authorized_keys_and_known_hosts_anywhere_witness :
  ScanSSHAuthorizedKeys scanner_u "/srv/git/authorized_keys"
    (Some {| os.name := "authorized_keys"; os.mode := 420 |})
  = Done ["/srv/git/authorized_keys: expected chmod 0600, got 0644"]
  /\ ScanSSHAuthorizedKeys scanner_u "/srv/git/authorized_keys"
       (Some {| os.name := "authorized_keys"; os.mode := 384 |}) = Done []
  /\ ScanSSHKnownHosts scanner_u "/etc/ssh/known_hosts"
       (Some {| os.name := "known_hosts"; os.mode := 384 |})
     = Done ["/etc/ssh/known_hosts: expected chmod 0644, got 0600"]
  /\ ScanSSHKnownHosts scanner_u "/etc/ssh/known_hosts"
       (Some {| os.name := "known_hosts"; os.mode := 420 |}) = Done [].
Proof.
  split; [| split; [| split]].
  - apply (proj2 (proj1 (authorized_keys_and_known_hosts_anywhere scanner_u
                           "/srv/git/authorized_keys"
                           {| os.name := "authorized_keys"; os.mode := 420 |}) eq_refl)).
    vm_compute. discriminate.
  - apply (proj1 (proj1 (authorized_keys_and_known_hosts_anywhere scanner_u
                           "/srv/git/authorized_keys"
                           {| os.name := "authorized_keys"; os.mode := 384 |}) eq_refl)).
    reflexivity.
  - apply (proj2 (proj2 (authorized_keys_and_known_hosts_anywhere scanner_u
                           "/etc/ssh/known_hosts"
                           {| os.name := "known_hosts"; os.mode := 384 |}) eq_refl)).
    vm_compute. discriminate.
  - apply (proj1 (proj2 (authorized_keys_and_known_hosts_anywhere scanner_u
                           "/etc/ssh/known_hosts"
                           {| os.name := "known_hosts"; os.mode := 420 |}) eq_refl)).
    reflexivity.
Defined.

(** ** The text of a discrepancy *)

Lemma compare_format (pth : string) (expected : option N) (m : N) (w : string) :
  In w (compare pth expected (m mod o01000)%N) ->
  exists e, expected = Some e /\ e <> (m mod o01000)%N
            /\ w = discrepancy pth e (m mod o01000)%N.
Proof.
  unfold compare. destruct expected as [e |]; [| intros []].
  destruct (N.eqb_spec (m mod o01000) e) as [Heq | Hne]; [intros [] |].
  intros [<- | []]. exists e. repeat split. congruence.
Qed.

Lemma policy_expected_modes :
  Forall (fun rc : rule * classifier =>
            forall o pth name e, snd rc o pth name = Some e -> In e expected_modes)
         policy.
Proof.
  unfold policy, expected_modes.
  repeat (apply Forall_cons || apply Forall_nil); cbn [fst snd]; intros o pth name e;
    cbv beta delta [expects_SSH expects_SSHConfig expects_SSHKeys
                    expects_SSHAuthorizedKeys expects_SSHKnownHosts expects_Home];
    repeat match goal with
           | |- context [if ?b then _ else _] => destruct b
           end;
    intros H; inversion H; subst; simpl; tauto.
Qed.

(** C9.  Every string a rule produces is the path, [: expected chmod ],
    the expected mode, [, got ] and the mode found, where each of the
    two modes is written as exactly four octal digits (zero-padded) that
    denote it. *)
Theorem discrepancy_text_format
  (r : rule) (o : Scanner) (pth : string) (info : os.FileInfo)
  (ws : list string) (w : string) :
  In r rules ->
  r o pth info = Done ws ->
  In w ws ->
  exists (expected actual : N) (NNNN1 NNNN2 : string),
    w = pth ++ ": expected chmod " ++ NNNN1 ++ ", got " ++ NNNN2
    /\ NNNN1 = fmt.verb_04o expected /\ NNNN2 = fmt.verb_04o actual
    /\ four_octal_digits NNNN1 = true /\ octal_value NNNN1 = expected
    /\ four_octal_digits NNNN2 = true /\ octal_value NNNN2 = actual
    /\ In expected expected_modes
    /\ exists st, info = Some st /\ actual = (os.mode st mod o01000)%N.
Proof.
  intros Hr Hrun Hw.
  assert (Hpol : exists c, In (r, c) policy).
  { unfold rules in Hr. unfold policy. simpl in Hr. simpl.
    repeat (destruct Hr as [<- | Hr]; [eexists; eauto 8 |]). destruct Hr. }
  destruct Hpol as [c Hc].
  destruct info as [st |].
  2:{ pose proof rules_nil_panic as Hnil. rewrite Forall_forall in Hnil.
      specialize (Hnil _ Hc o pth). cbn [fst] in Hnil. congruence. }
  pose proof policy_sound as Hs. rewrite Forall_forall in Hs.
  specialize (Hs _ Hc o pth st). cbn [fst snd] in Hs.
  rewrite Hs in Hrun. injection Hrun as <-.
  apply compare_format in Hw. destruct Hw as (e & He & Hne & ->).
  pose proof policy_expected_modes as Hm. rewrite Forall_forall in Hm.
  specialize (Hm _ Hc o pth (os.name st) e He).
  assert (He511 : (e <= 511)%N).
  { unfold expected_modes in Hm. simpl in Hm.
    repeat (destruct Hm as [<- | Hm]; [vm_compute; discriminate |]). destruct Hm. }
  destruct (four_octal_digits_small e He511) as [E1 E2].
  destruct (four_octal_digits_small _ (mod_o01000_bound (os.mode st))) as [A1 A2].
  exists e, (os.mode st mod o01000)%N,
    (fmt.verb_04o e), (fmt.verb_04o (os.mode st mod o01000)).
  repeat split; try assumption.
  exists st. split; reflexivity.
Qed.

Lemma discrepancy_text_format_witness :
  exists (expected actual : N) (NNNN1 NNNN2 : string),
    ".ssh/id_test: expected chmod 0600, got 0644"
    = ".ssh/id_test" ++ ": expected chmod " ++ NNNN1 ++ ", got " ++ NNNN2
    /\ NNNN1 = fmt.verb_04o expected /\ NNNN2 = fmt.verb_04o actual
    /\ four_octal_digits NNNN1 = true /\ octal_value NNNN1 = expected
    /\ four_octal_digits NNNN2 = true /\ octal_value NNNN2 = actual
    /\ In expected expected_modes
    /\ exists st, Some {| os.name := "id_test"; os.mode := 420 |} = Some st
                  /\ actual = (os.mode st mod o01000)%N.
Proof.
  apply (discrepancy_text_format ScanSSHKeys scanner_u ".ssh/id_test"
           (Some {| os.name := "id_test"; os.mode := 420 |})
           [".ssh/id_test: expected chmod 0600, got 0644"]).
  - simpl. tauto.
  - reflexivity.
  - simpl. tauto.
Defined.

(** ** The mode that is compared *)

Lemma low_bits_9_lor_high (m hi : N) :
  low_bits 9 hi = 0%N -> low_bits 9 (N.lor m hi) = low_bits 9 m.
Proof.
  unfold low_bits. intros H.
  rewrite N.land_lor_distr_l, H. apply N.lor_0_r.
Qed.

(** C3, as the code has it.  For every entry and every rule, the mode
    compared with the expected value (and printed after [got]) is the
    mode of the entry modulo octal [01000]: its low nine bits, the
    owner, group and other permission bits.  The directory bit and the
    setuid, setgid and sticky bits of the mode are not part of it. *)
Theorem compared_mode_is_low_nine_bits :
  compares_low_bits 9
  /\ (forall m : N,
         low_bits 9 m = (m mod o01000)%N
         /\ low_bits 9 m = N.land m os.ModePerm
         /\ (low_bits 9 m <= 511)%N
         /\ low_bits 9 (N.lor m os.ModeDir) = low_bits 9 m
         /\ low_bits 9 (N.lor m os.ModeSetuid) = low_bits 9 m
         /\ low_bits 9 (N.lor m os.ModeSetgid) = low_bits 9 m
         /\ low_bits 9 (N.lor m os.ModeSticky) = low_bits 9 m).
Proof.
  split.
  - unfold compares_low_bits.
    pose proof policy_sound as H. rewrite Forall_forall in *.
    intros rc Hrc o pth st. rewrite <- mod_o01000_low_bits. now apply H.
  - intros m. rewrite <- mod_o01000_low_bits.
    split; [reflexivity |].
    split; [rewrite mod_o01000_low_bits; reflexivity |].
    split; [apply mod_o01000_bound |].
    rewrite !mod_o01000_low_bits.
    repeat split; apply low_bits_9_lor_high; reflexivity.
Qed.

(** C3, as the claim words it, fails.  The rules do not compare the low
    twelve bits: for an entry [.ssh] whose mode is octal [01700],
    [ScanSSH] reports nothing, where a comparison of the low twelve bits
    with [0700] reports [got 1700].  Nor do they compare the permission
    bits together with the special bits: a sticky directory [.ssh] of
    mode [drwx-----T] passes like one of mode [drwx------]. *)
Lemma compared_mode_is_not_low_twelve_bits :
  ScanSSH scanner_u ".ssh" (Some {| os.name := ".ssh"; os.mode := 960 |}) = Done []
  /\ compare ".ssh" (expects_SSH scanner_u ".ssh" ".ssh") (low_bits 12 960%N)
     = [".ssh: expected chmod 0700, got 1700"]
  /\ ~ compares_low_bits 12
  /\ unix_mode_bits (os.ModeDir + os.ModeSticky + 448)%N = 960%N
  /\ ScanSSH scanner_u ".ssh"
       (Some {| os.name := ".ssh"; os.mode := os.ModeDir + os.ModeSticky + 448 |})
     = Done [].
Proof.
  split; [reflexivity |].
  split; [reflexivity |].
  split; [| split; reflexivity].
  unfold compares_low_bits, policy. intros H.
  apply Forall_inv in H. cbn [fst snd] in H.
  specialize (H scanner_u ".ssh" {| os.name := ".ssh"; os.mode := 960 |}).
  vm_compute in H. discriminate H.
Qed.

(** ** The callback and the walk *)

Lemma append_all_nil (o : Scanner) : append_all o [] = o.
Proof. destruct o. unfold append_all. simpl. now rewrite app_nil_r. Qed.

Lemma append_all_app (o : Scanner) (a b : list string) :
  append_all (append_all o a) b = append_all o (a ++ b)%list.
Proof. unfold append_all. simpl. now rewrite app_assoc. Qed.

Lemma entry_warnings_Home (o o' : Scanner) (pth : string) (st : os.fileStat) :
  Home o' = Home o -> entry_warnings o' pth st = entry_warnings o pth st.
Proof.
  intros H. unfold entry_warnings, policy. simpl.
  unfold expects_Home. now rewrite H.
Qed.

Lemma scan_entries_Home (o o' : Scanner) (es : list (string * os.fileStat)) :
  Home o' = Home o -> scan_entries o' es = scan_entries o es.
Proof.
  intros H. unfold scan_entries. induction es as [| e es IH]; simpl.
  - reflexivity.
  - now rewrite IH, (entry_warnings_Home o o').
Qed.

Lemma scan_entries_app (o : Scanner) (a b : list (string * os.fileStat)) :
  scan_entries o (a ++ b)%list = (scan_entries o a ++ scan_entries o b)%list.
Proof. unfold scan_entries. apply flat_map_app. Qed.

Lemma appendWarnings_policy (r : rule) (c : classifier) (pth : string)
      (st : os.fileStat) (o : Scanner) :
  (forall o', r o' pth (Some st)
              = Done (compare pth (c o' pth (os.name st)) (os.mode st mod o01000)%N)) ->
  appendWarnings (fun o' => r o' pth (Some st)) o
  = Done (tt, append_all o (compare pth (c o pth (os.name st)) (os.mode st mod o01000)%N)).
Proof. intros H. unfold appendWarnings. now rewrite H. Qed.

(** On an entry whose [FileInfo] is not nil, [Walk] appends the
    warnings of the six rules and returns the nil error, whatever error
    it was handed. *)
Lemma Walk_entry (pth : string) (st : os.fileStat) (err : option error) (o : Scanner) :
  Walk pth (Some st) err o = Done (None, append_all o (entry_warnings o pth st)).
Proof.
  unfold Walk, bind.
  rewrite (appendWarnings_policy _ expects_SSH) by (intros; apply ScanSSH_policy).
  rewrite (appendWarnings_policy _ expects_SSHConfig) by (intros; apply ScanSSHConfig_policy).
  rewrite (appendWarnings_policy _ expects_SSHKeys) by (intros; apply ScanSSHKeys_policy).
  rewrite (appendWarnings_policy _ expects_SSHAuthorizedKeys)
    by (intros; apply ScanSSHAuthorizedKeys_policy).
  rewrite (appendWarnings_policy _ expects_SSHKnownHosts)
    by (intros; apply ScanSSHKnownHosts_policy).
  rewrite (appendWarnings_policy _ expects_Home) by (intros; apply ScanHome_policy).
  unfold ret. rewrite !append_all_app.
  unfold entry_warnings, policy. cbn [flat_map fst snd].
  rewrite app_nil_r. reflexivity.
Qed.

(** On the nil [FileInfo], [Walk] panics in its first statement: the
    call [info.Name()] of [ScanSSH]. *)
Lemma Walk_nil_info (pth : string) (err : option error) (o : Scanner) :
  Walk pth None err o = Panic nil_dereference.
Proof. reflexivity. Qed.

Scheme node_mutual := Induction for os.node Sort Prop
  with entries_mutual := Induction for os.entries Sort Prop.
Combined Scheme node_entries_ind from node_mutual, entries_mutual.

(** What [filepath.walk] does with the callback [Walk]: on a tree that
    holds still it returns the nil error and has appended the warnings
    of the entries visited; on a tree with an entry whose [Lstat] fails
    it panics. *)
Lemma walk_Walk :
  (forall (n : os.node) (p : string) (o : Scanner),
      filepath.walk Walk p n o
      = if stable n
        then Done (None, append_all o (scan_entries o (visited p n)))
        else Panic nil_dereference)
  /\ (forall (names : os.entries) (p : string) (o : Scanner),
         filepath.walk_names Walk p names o
         = if stable_names names
           then Done (None, append_all o (scan_entries o (visited_names p names)))
           else Panic nil_dereference).
Proof.
  apply node_entries_ind.
  - intros info readdir children IH p o.
    cbn [filepath.walk stable visited].
    destruct (os.IsDir info); cbn [negb].
    + unfold bind. rewrite Walk_entry.
      destruct readdir as [e |].
      * unfold ret, scan_entries. cbn [flat_map fst snd]. now rewrite app_nil_r.
      * rewrite IH. destruct (stable_names children); [| reflexivity].
        rewrite append_all_app.
        rewrite (scan_entries_Home o (append_all o _)) by reflexivity.
        reflexivity.
    + rewrite Walk_entry. unfold scan_entries. cbn [flat_map fst snd].
      now rewrite app_nil_r.
  - intros p o. cbn. unfold ret. now rewrite append_all_nil.
  - intros name err rest IH p o.
    cbn [filepath.walk_names stable_names]. reflexivity.
  - intros name child IHc rest IHr p o.
    cbn [filepath.walk_names stable_names visited_names].
    unfold bind. rewrite IHc.
    destruct (stable child); cbn [andb]; [| reflexivity].
    rewrite IHr. destruct (stable_names rest); [| reflexivity].
    rewrite append_all_app, scan_entries_app.
    rewrite (scan_entries_Home o (append_all o _)) by reflexivity.
    reflexivity.
Qed.

(** [Scan] on Go's [filepath.Walk], when the home directory resolves. *)
Lemma Scan_go_host (home : string) (lstat : string -> error + os.node) (root : string) :
  Scan (go_host (inr home) lstat) root
  = match lstat root with
    | inl _ => Panic nil_dereference
    | inr n =>
        if stable n
        then Done (scan_entries {| Warnings := []; Home := home |} (visited root n), None)
        else Panic nil_dereference
    end.
Proof.
  unfold Scan, NewScanner, go_host. cbn [UserHomeDir filepath_Walk].
  unfold filepath.Walk, bind.
  destruct (lstat root) as [e | n].
  - reflexivity.
  - rewrite (proj1 walk_Walk). destruct (stable n); reflexivity.
Qed.

(** ** Scan and Report *)

(** C1.  On Go's [filepath.Walk], a root whose [Lstat] fails is handed
    to [Walk] with a nil [FileInfo]; [Walk] does not read the error and
    panics in its first rule.  [Scan] returns nothing (neither warnings
    nor an error) and [Report] returns no exit status. *)
Theorem nonexistent_root_panics
  (home : string) (lstat : string -> error + os.node) (root : string) (e : error) :
  lstat root = inl e ->
  Scan (go_host (inr home) lstat) root = Panic nil_dereference
  /\ Report (go_host (inr home) lstat) root = Panic nil_dereference.
Proof.
  intros H.
  assert (HS : Scan (go_host (inr home) lstat) root = Panic nil_dereference).
  { rewrite Scan_go_host, H. reflexivity. }
  split; [exact HS |].
  unfold Report. now rewrite HS.
Qed.

Lemma nonexistent_root_panics_witness :
  Scan (go_host (inr "/home/u") (only "." tree_id_test_0600)) "/nonexistent"
  = Panic nil_dereference
  /\ Report (go_host (inr "/home/u") (only "." tree_id_test_0600)) "/nonexistent"
     = Panic nil_dereference.
Proof.
  apply (nonexistent_root_panics "/home/u" (only "." tree_id_test_0600) "/nonexistent"
           (ENOENT "lstat" "/nonexistent")).
  reflexivity.
Defined.

(** C2.  On Go's [filepath.Walk], [Scan] never returns a traversal
    error: [Walk] returns the nil error whatever error it is handed, so
    the error of a directory that cannot be read is lost, and what
    [Scan] returns with the warnings is the nil error. *)
Theorem traversal_errors_are_not_returned
  (home : string) (lstat : string -> error + os.node) (root : string)
  (ws : list string) (err : option error) :
  Scan (go_host (inr home) lstat) root = Done (ws, err) ->
  err = None.
Proof.
  rewrite Scan_go_host.
  destruct (lstat root) as [e | n]; [discriminate |].
  destruct (stable n); [| discriminate].
  intros H. injection H as _ <-. reflexivity.
Qed.

Lemma traversal_errors_are_not_returned_witness :
  exists (ws : list string) (err : option error),
    Scan (go_host (inr "/home/u") (only "." tree_unreadable)) "." = Done (ws, err)
    /\ ws = [".ssh: expected chmod 0700, got 0755";
             ".ssh/id_test: expected chmod 0600, got 0644";
             "work/known_hosts: expected chmod 0644, got 0600"]
    /\ err = None.
Proof.
  eexists. eexists. split; [vm_compute; reflexivity |].
  split; [reflexivity |].
  apply (traversal_errors_are_not_returned "/home/u" (only "." tree_unreadable) "."
           [".ssh: expected chmod 0700, got 0755";
            ".ssh/id_test: expected chmod 0600, got 0644";
            "work/known_hosts: expected chmod 0644, got 0600"]).
  vm_compute. reflexivity.
Defined.

(** C10.  When the traversal returns [io.EOF], [Scan] returns the
    warnings accumulated with the nil error: the very result it returns
    for a traversal that accumulates the same warnings and returns the
    nil error. *)
Theorem Scan_treats_EOF_as_success
  (h h' : Host) (home root : string) (o : Scanner) :
  UserHomeDir h = inr home ->
  filepath_Walk h root Walk {| Warnings := []; Home := home |} = Done (Some io.EOF, o) ->
  UserHomeDir h' = inr home ->
  filepath_Walk h' root Walk {| Warnings := []; Home := home |} = Done (None, o) ->
  Scan h root = Done (Warnings o, None)
  /\ Scan h' root = Scan h root.
Proof.
  intros Hh Hw Hh' Hw'.
  unfold Scan, NewScanner. rewrite Hh, Hh'.
  unfold obind. rewrite Hw, Hw'. split; reflexivity.
Qed.

Lemma Scan_treats_EOF_as_success_witness :
  Scan (host_EOF "/home/u" (file ".ssh" o0644)) ".ssh"
  = Done ([".ssh: expected chmod 0700, got 0644"], None)
  /\ Scan (go_host (inr "/home/u") (only ".ssh" (file ".ssh" o0644))) ".ssh"
     = Scan (host_EOF "/home/u" (file ".ssh" o0644)) ".ssh".
Proof.
  apply (Scan_treats_EOF_as_success
           (host_EOF "/home/u" (file ".ssh" o0644))
           (go_host (inr "/home/u") (only ".ssh" (file ".ssh" o0644)))
           "/home/u" ".ssh"
           {| Warnings := [".ssh: expected chmod 0700, got 0644"]; Home := "/home/u" |});
    reflexivity.
Defined.

(** ** Further properties of the scan *)

(** X1.  On a tree every reachable entry of which can be [Lstat]ed,
    [Scan] returns the nil error and the warnings of the entries in the
    order of the walk (a directory before what it holds, a directory
    that cannot be read without what it holds), each entry's warnings in
    the order of the rules. *)
Theorem Scan_is_an_ordered_fold
  (home : string) (lstat : string -> error + os.node) (root : string) (n : os.node) :
  lstat root = inr n ->
  stable n = true ->
  Scan (go_host (inr home) lstat) root
  = Done (flat_map (fun e => entry_warnings {| Warnings := []; Home := home |} (fst e) (snd e))
                   (visited root n),
          None).
Proof.
  intros Hl Hs. rewrite Scan_go_host, Hl, Hs. reflexivity.
Qed.

Lemma Scan_is_an_ordered_fold_witness :
  Scan (go_host (inr "/home/u") (only "." tree_unreadable)) "."
  = Done (flat_map (fun e => entry_warnings scanner_u (fst e) (snd e))
                   [(".", {| os.name := "."; os.mode := os.ModeDir + o0755 |});
                    (".ssh", {| os.name := ".ssh"; os.mode := os.ModeDir + o0755 |});
                    (".ssh/id_test", {| os.name := "id_test"; os.mode := o0644 |});
                    ("private", {| os.name := "private"; os.mode := os.ModeDir + 0 |});
                    ("work", {| os.name := "work"; os.mode := os.ModeDir + o0755 |});
                    ("work/known_hosts", {| os.name := "known_hosts"; os.mode := o0600 |})],
          None).
Proof.
  apply (Scan_is_an_ordered_fold "/home/u" (only "." tree_unreadable) "." tree_unreadable);
    reflexivity.
Defined.

(** X4.  When the home directory cannot be resolved the scan never
    starts: [Scan] returns no warning and the error of
    [os.UserHomeDir], whatever the traversal would do, and [Report]
    prints that error and returns 1. *)
Theorem unresolved_home_is_fatal (h : Host) (root : string) (e : error) :
  UserHomeDir h = inl e ->
  Scan h root = Done ([], Some e)
  /\ Report h root = Done ([Error e], 1%Z).
Proof.
  intros H.
  assert (HS : Scan h root = Done ([], Some e)).
  { unfold Scan, NewScanner. now rewrite H. }
  split; [exact HS |]. unfold Report. now rewrite HS.
Qed.

Lemma unresolved_home_is_fatal_witness :
  Scan (go_host (inl (errors_New "$HOME is not defined")) (only "." tree_id_test_0644)) "."
  = Done ([], Some (errors_New "$HOME is not defined"))
  /\ Report (go_host (inl (errors_New "$HOME is not defined")) (only "." tree_id_test_0644)) "."
     = Done (["$HOME is not defined"], 1%Z).
Proof.
  apply (unresolved_home_is_fatal
           (go_host (inl (errors_New "$HOME is not defined")) (only "." tree_id_test_0644))
           "." (errors_New "$HOME is not defined")).
  reflexivity.
Defined.

(** X5.  The value [Report] returns: 0 when [Scan] returns no warning
    and the nil error, 1 when it returns a warning, and 1 when it
    returns no warning and an error.  The warnings are printed in
    order, and the error is printed only when there is no warning. *)
Theorem Report_exit_status
  (h : Host) (root : string) (ws : list string) (err : option error) :
  Scan h root = Done (ws, err) ->
  Report h root
  = Done (match ws, err with
          | [], Some e => [Error e]
          | _, _ => ws
          end,
          match ws, err with
          | [], None => 0%Z
          | _, _ => 1%Z
          end).
Proof.
  intros H. unfold Report. rewrite H. cbn [obind].
  destruct ws as [| w ws]; destruct err as [e |]; reflexivity.
Qed.

Lemma Report_exit_status_witness :
  Report (go_host (inr "/home/u") (only "." tree_unreadable)) "."
  = Done ([".ssh: expected chmod 0700, got 0755";
           ".ssh/id_test: expected chmod 0600, got 0644";
           "work/known_hosts: expected chmod 0644, got 0600"], 1%Z).
Proof.
  apply (Report_exit_status (go_host (inr "/home/u") (only "." tree_unreadable)) "."
           [".ssh: expected chmod 0700, got 0755";
            ".ssh/id_test: expected chmod 0600, got 0644";
            "work/known_hosts: expected chmod 0644, got 0600"] None).
  vm_compute. reflexivity.
Defined.

(** X6.  When an entry that the walk reaches fails its [Lstat] (it was
    removed after its directory was read), [Walk] is handed a nil
    [FileInfo] and [Scan] panics: the warnings collected so far are not
    returned. *)
Theorem vanished_entry_panics
  (home : string) (lstat : string -> error + os.node) (root : string) (n : os.node) :
  lstat root = inr n ->
  stable n = false ->
  Scan (go_host (inr home) lstat) root = Panic nil_dereference.
Proof.
  intros Hl Hs. rewrite Scan_go_host, Hl, Hs. reflexivity.
Qed.

Lemma vanished_entry_panics_witness :
  Scan (go_host (inr "/home/u") (only "." tree_vanished)) "." = Panic nil_dereference.
Proof.
  apply (vanished_entry_panics "/home/u" (only "." tree_vanished) "." tree_vanished);
    reflexivity.
Defined.

(** X7.  The names the two patterns match: [SSHKeyPattern] matches
    [id_] followed by one or more bytes other than a newline;
    [SSHPublicKeyPattern] matches [id_], one or more bytes other than a
    newline, then [.pub]. *)
Theorem key_patterns_characterised (name : string) :
  (regexp.MatchString SSHKeyPattern name = true
   <-> exists rest, name = "id_" ++ rest /\ rest <> "" /\ no_newline rest = true)
  /\ (regexp.MatchString SSHPublicKeyPattern name = true
      <-> exists stem, name = "id_" ++ stem ++ ".pub" /\ stem <> "" /\ no_newline stem = true).
Proof.
  split; [apply SSHKeyPattern_spec | apply SSHPublicKeyPattern_spec].
Qed.

(** An entry whose base name differs from the home string is not
    checked by the home-directory rule. *)
Lemma ScanHome_skips_other_names (o : Scanner) (pth : string) (st : os.fileStat) :
  os.name st <> Home o ->
  ScanHome o pth (Some st) = Done [].
Proof.
  intros H. rewrite ScanHome_policy. unfold expects_Home.
  apply String.eqb_neq in H. now rewrite H.
Qed.

Lemma compare_None (pth : string) (m : N) : compare pth None m = [].
Proof. reflexivity. Qed.

Lemma compare_length (pth : string) (expected : option N) (m : N) :
  (List.length (compare pth expected m) <= 1)%nat.
Proof.
  unfold compare. destruct expected as [e |]; [| simpl; lia].
  destruct (m =? e)%N; simpl; lia.
Qed.

(** X9.  The classifications exclude one another: for an entry whose
    base name is not the home string of the scanner, at most one of the
    six rules applies, so [Walk] appends at most one warning for it. *)
Theorem at_most_one_rule_fires (o : Scanner) (pth : string) (st : os.fileStat) :
  os.name st <> Home o ->
  (List.length (entry_warnings o pth st) <= 1)%nat
  /\ Walk pth (Some st) None o = Done (None, append_all o (entry_warnings o pth st)).
Proof.
  intros Hh. split; [| apply Walk_entry].
  unfold entry_warnings, policy. cbn [flat_map fst snd].
  unfold expects_Home. apply String.eqb_neq in Hh. rewrite Hh.
  unfold expects_SSH, expects_SSHConfig, expects_SSHKeys,
    expects_SSHAuthorizedKeys, expects_SSHKnownHosts.
  destruct (String.eqb_spec (os.name st) ".ssh") as [E | H1];
    [rewrite E; cbn [String.eqb Ascii.eqb Bool.eqb andb];
     vm_compute (regexp.MatchString _ _) |].
  2: destruct (String.eqb_spec (os.name st) "config") as [E | H2];
    [rewrite E; cbn [String.eqb Ascii.eqb Bool.eqb andb];
     vm_compute (regexp.MatchString _ _) |].
  3: destruct (String.eqb_spec (os.name st) "authorized_keys") as [E | H3];
    [rewrite E; cbn [String.eqb Ascii.eqb Bool.eqb andb];
     vm_compute (regexp.MatchString _ _) |].
  4: destruct (String.eqb_spec (os.name st) "known_hosts") as [E | H4];
    [rewrite E; cbn [String.eqb Ascii.eqb Bool.eqb andb];
     vm_compute (regexp.MatchString _ _) |].
  all: cbn [andb]; rewrite ?compare_None; cbn [app]; rewrite ?app_nil_r;
    apply compare_length.
Qed.

Lemma at_most_one_rule_fires_witness :
  (List.length (entry_warnings scanner_u ".ssh/id_test"
                  {| os.name := "id_test"; os.mode := o0644 |}) <= 1)%nat
  /\ Walk ".ssh/id_test" (Some {| os.name := "id_test"; os.mode := o0644 |}) None scanner_u
     = Done (None, append_all scanner_u
                     (entry_warnings scanner_u ".ssh/id_test"
                        {| os.name := "id_test"; os.mode := o0644 |})).
Proof.
  apply (at_most_one_rule_fires scanner_u ".ssh/id_test"
           {| os.name := "id_test"; os.mode := o0644 |}).
  vm_compute. discriminate.
Defined.

(** ** Cleaned paths *)

Lemma drop_while_app (a X : list ascii) :
  forallb not_separator a = true ->
  filepath.at_element_end X = true ->
  drop_while not_separator (a ++ X)%list = X.
Proof.
  intros Ha HX. induction a as [| c a IH]; simpl in *.
  - destruct X as [| x X]; [reflexivity |]. simpl in HX. simpl.
    unfold not_separator. now rewrite HX.
  - apply andb_true_iff in Ha. destruct Ha as [Hc Ha]. rewrite Hc. now apply IH.
Qed.

Lemma take_while_app (a X : list ascii) :
  forallb not_separator a = true ->
  filepath.at_element_end X = true ->
  take_while not_separator (a ++ X)%list = a.
Proof.
  intros Ha HX. induction a as [| c a IH]; simpl in *.
  - destruct X as [| x X]; [reflexivity |]. simpl in HX. simpl.
    unfold not_separator. now rewrite HX.
  - apply andb_true_iff in Ha. destruct Ha as [Hc Ha]. rewrite Hc. f_equal. now apply IH.
Qed.

Lemma simple_name_inv (c : string) :
  simple_name c = true ->
  c <> "" /\ forallb not_separator (list_ascii_of_string c) = true
  /\ c <> "." /\ c <> "..".
Proof.
  unfold simple_name. intros H.
  repeat (apply andb_true_iff in H; destruct H as [H ?]).
  repeat match goal with
         | H : negb (_ =? _)%string = true |- _ =>
             apply negb_true_iff in H; apply String.eqb_neq in H
         end.
  auto.
Qed.

Lemma clean_loop_name (fuel : nat) (rooted : bool) (c : string)
      (X out : list ascii) (dotdot : nat) :
  simple_name c = true ->
  filepath.at_element_end X = true ->
  filepath.clean_loop (S fuel) rooted (list_ascii_of_string c ++ X)%list out dotdot
  = filepath.clean_loop fuel rooted X
      (rev (list_ascii_of_string c) ++ with_separator rooted out)%list dotdot.
Proof.
  intros Hc HX. apply simple_name_inv in Hc. destruct Hc as (Hne & Hns & Hd & Hdd).
  pose proof (drop_while_app _ _ Hns HX) as Hdrop.
  pose proof (take_while_app _ _ Hns HX) as Htake.
  destruct c as [| x c']; [contradiction |].
  cbn [list_ascii_of_string app] in *.
  cbn [forallb] in Hns. apply andb_true_iff in Hns. destruct Hns as [Hx Hc'].
  cbn [filepath.clean_loop].
  unfold not_separator in Hx. apply negb_true_iff in Hx. rewrite Hx.
  assert (E2 : Ascii.eqb x "." && filepath.at_element_end (list_ascii_of_string c' ++ X)%list
               = false).
  { destruct (Ascii.eqb_spec x "."); [| reflexivity]. subst x. cbn [andb].
    destruct c' as [| y c'']; [contradiction |].
    cbn [list_ascii_of_string app filepath.at_element_end].
    cbn [list_ascii_of_string forallb] in Hc'.
    apply andb_true_iff in Hc'. destruct Hc' as [Hy _].
    unfold not_separator in Hy. now apply negb_true_iff in Hy. }
  rewrite E2.
  assert (E3 : Ascii.eqb x "." &&
               match (list_ascii_of_string c' ++ X)%list with
               | d :: rest2 => Ascii.eqb d "." && filepath.at_element_end rest2
               | [] => false
               end = false).
  { destruct (Ascii.eqb_spec x "."); [| reflexivity]. subst x. cbn [andb].
    destruct c' as [| y c'']; [contradiction |].
    cbn [list_ascii_of_string app].
    destruct (Ascii.eqb_spec y "."); [| reflexivity]. subst y. cbn [andb].
    destruct c'' as [| z c3]; [contradiction |].
    cbn [list_ascii_of_string app filepath.at_element_end].
    cbn [list_ascii_of_string forallb] in Hc'.
    apply andb_true_iff in Hc'. destruct Hc' as [_ Hc'].
    apply andb_true_iff in Hc'. destruct Hc' as [Hz _].
    unfold not_separator in Hz. now apply negb_true_iff in Hz. }
  rewrite E3.
  rewrite Hdrop, Htake. reflexivity.
Qed.

Lemma clean_loop_separators (fuel : nat) (rooted : bool) (s out : list ascii) (dotdot : nat) :
  forallb IsPathSeparator s = true ->
  filepath.clean_loop fuel rooted s out dotdot = out.
Proof.
  revert s. induction fuel as [| fuel IH]; intros s Hs; [reflexivity |].
  destruct s as [| c s]; [reflexivity |].
  cbn [forallb] in Hs. apply andb_true_iff in Hs. destruct Hs as [Hc Hs].
  cbn [filepath.clean_loop]. rewrite Hc. now apply IH.
Qed.

Lemma clean_loop_separator (fuel : nat) (rooted : bool) (X out : list ascii) (dotdot : nat) :
  filepath.clean_loop (S fuel) rooted ("/"%char :: X) out dotdot
  = filepath.clean_loop fuel rooted X out dotdot.
Proof. reflexivity. Qed.

Lemma clean_loop_skip (fuel : nat) (rooted : bool) (s X out : list ascii) (dotdot : nat) :
  forallb IsPathSeparator s = true ->
  filepath.clean_loop (List.length s + fuel) rooted (s ++ X)%list out dotdot
  = filepath.clean_loop fuel rooted X out dotdot.
Proof.
  intros Hs. induction s as [| c s IH]; [reflexivity |].
  cbn [forallb] in Hs. apply andb_true_iff in Hs. destruct Hs as [Hc Hs].
  cbn [List.length Nat.add app filepath.clean_loop]. rewrite Hc. now apply IH.
Qed.

Lemma at_element_end_tail (cs : list string) (s : list ascii) :
  forallb IsPathSeparator s = true ->
  filepath.at_element_end (tail_chars cs ++ s)%list = true.
Proof.
  intros Hs. destruct cs as [| c cs]; cbn.
  - destruct s as [| x s]; [reflexivity |]. cbn in Hs.
    apply andb_true_iff in Hs. apply Hs.
  - reflexivity.
Qed.

Lemma with_separator_content (rooted : bool) (out : list ascii) :
  ((if rooted then 2 else 1) <= List.length out)%nat ->
  with_separator rooted out = "/"%char :: out.
Proof.
  intros H. unfold with_separator.
  destruct rooted; cbn [andb orb negb].
  - destruct (Nat.eqb_spec (List.length out) 1); [lia | reflexivity].
  - destruct (Nat.eqb_spec (List.length out) 0); [lia | reflexivity].
Qed.

Lemma clean_loop_tail (cs : list string) :
  forall (fuel : nat) (rooted : bool) (s out : list ascii) (dotdot : nat),
    forallb simple_name cs = true ->
    forallb IsPathSeparator s = true ->
    (2 * List.length cs <= fuel)%nat ->
    ((if rooted then 2 else 1) <= List.length out)%nat ->
    filepath.clean_loop fuel rooted (tail_chars cs ++ s)%list out dotdot
    = (rev (tail_chars cs) ++ out)%list.
Proof.
  induction cs as [| c cs IH]; intros fuel rooted s out dotdot Hcs Hs Hf Ho.
  - cbn. now apply clean_loop_separators.
  - cbn [forallb] in Hcs. apply andb_true_iff in Hcs. destruct Hcs as [Hc Hcs].
    cbn [List.length] in Hf.
    destruct fuel as [| [| fuel]]; [lia | lia |].
    cbn [tail_chars flat_map]. fold (tail_chars cs).
    rewrite <- !app_comm_cons.
    rewrite clean_loop_separator.
    rewrite <- app_assoc.
    rewrite clean_loop_name by (try assumption; now apply at_element_end_tail).
    rewrite with_separator_content by assumption.
    rewrite IH; try assumption; try lia.
    + cbn [rev]. rewrite rev_app_distr. rewrite <- !app_assoc. reflexivity.
    + rewrite length_app. cbn [List.length]. destruct rooted; lia.
Qed.

Lemma clean_loop_path (rooted : bool) (c : string) (cs : list string)
      (fuel : nat) (s0 s : list ascii) (dotdot : nat) :
  simple_name c = true ->
  forallb simple_name cs = true ->
  forallb IsPathSeparator s0 = true ->
  forallb IsPathSeparator s = true ->
  (List.length s0 + 1 + 2 * List.length cs <= fuel)%nat ->
  filepath.clean_loop fuel rooted
    (s0 ++ list_ascii_of_string c ++ tail_chars cs ++ s)%list
    (if rooted then ["/"%char] else []) dotdot
  = (rev (list_ascii_of_string c ++ tail_chars cs) ++ (if rooted then ["/"%char] else []))%list.
Proof.
  intros Hc Hcs Hs0 Hs Hf.
  replace fuel with (List.length s0 + S (fuel - List.length s0 - 1))%nat by lia.
  rewrite clean_loop_skip by assumption.
  rewrite clean_loop_name by (try assumption; now apply at_element_end_tail).
  assert (Hw : with_separator rooted (if rooted then ["/"%char] else [])
               = (if rooted then ["/"%char] else [])) by (destruct rooted; reflexivity).
  rewrite Hw.
  rewrite clean_loop_tail; try assumption; try lia.
  - rewrite rev_app_distr, <- app_assoc. reflexivity.
  - rewrite length_app, length_rev.
    apply simple_name_inv in Hc. destruct Hc as (Hne & _).
    destruct c; [contradiction |]. cbn. destruct rooted; cbn; lia.
Qed.

Lemma string_length_chars (p : string) :
  String.length p = List.length (list_ascii_of_string p).
Proof. induction p as [| c p IH]; simpl; [reflexivity | now rewrite IH]. Qed.

Lemma simple_name_chars (c : string) :
  simple_name c = true ->
  exists x c', list_ascii_of_string c = x :: c' /\ IsPathSeparator x = false.
Proof.
  intros H. apply simple_name_inv in H. destruct H as (Hne & Hns & _).
  destruct c as [| x c']; [contradiction |].
  exists x, (list_ascii_of_string c'). split; [reflexivity |].
  cbn in Hns. apply andb_true_iff in Hns. destruct Hns as [Hx _].
  unfold not_separator in Hx. now apply negb_true_iff in Hx.
Qed.

Lemma tail_chars_length (cs : list string) :
  forallb simple_name cs = true ->
  (2 * List.length cs <= List.length (tail_chars cs))%nat.
Proof.
  induction cs as [| c cs IH]; intros H; [cbn; lia |].
  cbn [forallb] in H. apply andb_true_iff in H. destruct H as [Hc Hcs].
  destruct (simple_name_chars c Hc) as (x & c' & E & _).
  cbn [tail_chars flat_map List.length]. fold (tail_chars cs).
  rewrite length_app, E. cbn [List.length]. specialize (IH Hcs). lia.
Qed.

(** [Clean] on a relative path without [.] and [..]: the names, joined
    by single separators, whatever separators follow. *)
Lemma Clean_relative (p c : string) (cs : list string) (s : list ascii) :
  simple_name c = true ->
  forallb simple_name cs = true ->
  forallb IsPathSeparator s = true ->
  list_ascii_of_string p = (list_ascii_of_string c ++ tail_chars cs ++ s)%list ->
  filepath.Clean p = string_of_list_ascii (list_ascii_of_string c ++ tail_chars cs).
Proof.
  intros Hc Hcs Hs Hp.
  pose proof (clean_loop_path false c cs (String.length p) [] s 0 Hc Hcs eq_refl Hs) as H.
  cbn [app List.length Nat.add] in H.
  assert (Hf : (1 + 2 * List.length cs <= String.length p)%nat).
  { rewrite string_length_chars, Hp, !length_app.
    pose proof (tail_chars_length cs Hcs).
    destruct (simple_name_chars c Hc) as (x & c' & E & _). rewrite E. cbn [List.length]. lia. }
  specialize (H Hf). rewrite <- Hp in H.
  unfold filepath.Clean.
  destruct (simple_name_chars c Hc) as (x & c' & E & Hx).
  assert (Hp' : list_ascii_of_string p = x :: (c' ++ tail_chars cs ++ s)%list).
  { rewrite Hp, E. reflexivity. }
  rewrite Hp' in *. rewrite Hx. rewrite H.
  rewrite app_nil_r.
  destruct (rev (list_ascii_of_string c ++ tail_chars cs)) eqn:Er.
  - apply (f_equal (@List.length ascii)) in Er. rewrite length_rev, length_app, E in Er.
    cbn in Er. lia.
  - rewrite <- Er, rev_involutive. reflexivity.
Qed.

(** [Clean] on a rooted path without [.] and [..]. *)
Lemma Clean_rooted (p : string) (cs : list string) (s0 s : list ascii) :
  forallb simple_name cs = true ->
  forallb IsPathSeparator s0 = true ->
  forallb IsPathSeparator s = true ->
  list_ascii_of_string p
  = ("/"%char :: s0 ++ match cs with
                       | [] => []
                       | c :: rest => list_ascii_of_string c ++ tail_chars rest
                       end ++ s)%list ->
  filepath.Clean p = string_of_list_ascii (path_chars true cs).
Proof.
  intros Hcs Hs0 Hs Hp.
  unfold filepath.Clean. rewrite Hp.
  change (IsPathSeparator "/") with true. cbn iota.
  destruct cs as [| c cs].
  - cbn [app]. rewrite clean_loop_separators.
    + reflexivity.
    + rewrite forallb_app, Hs0, Hs. reflexivity.
  - cbn [forallb] in Hcs. apply andb_true_iff in Hcs. destruct Hcs as [Hc Hcs].
    pose proof (clean_loop_path true c cs (String.length p) s0 s 1 Hc Hcs Hs0 Hs) as H.
    assert (Hf : (List.length s0 + 1 + 2 * List.length cs <= String.length p)%nat).
    { rewrite string_length_chars, Hp. cbn [List.length]. rewrite !length_app.
      pose proof (tail_chars_length cs Hcs).
      destruct (simple_name_chars c Hc) as (x & c' & E & _). rewrite E. cbn [List.length]. lia. }
    specialize (H Hf). rewrite <- app_assoc. rewrite H.
    destruct (rev (list_ascii_of_string c ++ tail_chars cs) ++ ["/"%char])%list eqn:Er.
    + apply (f_equal (@List.length ascii)) in Er. rewrite length_app in Er.
      cbn in Er. lia.
    + rewrite <- Er, rev_app_distr, rev_involutive. reflexivity.
Qed.

Lemma chars_join_names (c : string) (cs : list string) :
  list_ascii_of_string (join_names (c :: cs))
  = (list_ascii_of_string c ++ tail_chars cs)%list.
Proof.
  revert c. induction cs as [| d cs IH]; intros c.
  - cbn. now rewrite app_nil_r.
  - cbn [join_names]. cbn [join_names] in IH.
    rewrite !list_ascii_of_string_app. rewrite IH. reflexivity.
Qed.

Lemma chars_clean_path (rooted : bool) (cs : list string) :
  list_ascii_of_string (clean_path rooted cs) = path_chars rooted cs.
Proof.
  unfold clean_path, path_chars. rewrite list_ascii_of_string_app.
  f_equal; [destruct rooted; reflexivity |].
  destruct cs as [| c cs]; [reflexivity | apply chars_join_names].
Qed.

Lemma string_of_path_chars (rooted : bool) (cs : list string) :
  string_of_list_ascii (path_chars rooted cs) = clean_path rooted cs.
Proof. rewrite <- chars_clean_path. apply string_of_list_ascii_of_string. Qed.

Lemma tail_chars_snoc (cs : list string) (name : string) :
  tail_chars (cs ++ [name])%list
  = (tail_chars cs ++ "/"%char :: list_ascii_of_string name)%list.
Proof. unfold tail_chars. rewrite flat_map_app. cbn. now rewrite app_nil_r. Qed.

Lemma forallb_snoc (cs : list string) (name : string) :
  forallb simple_name cs = true -> simple_name name = true ->
  forallb simple_name (cs ++ [name])%list = true.
Proof. intros H1 H2. rewrite forallb_app, H1. cbn. now rewrite H2. Qed.

Lemma Join_nonempty (d name : string) :
  d <> "" -> name <> "" -> filepath.Join d name = filepath.Clean (d ++ "/" ++ name).
Proof. intros Hd Hn. destruct d; [contradiction |]. destruct name; [contradiction |]. reflexivity. Qed.

Lemma clean_path_nonempty (rooted : bool) (cs : list string) :
  rooted = true \/ cs <> [] -> forallb simple_name cs = true -> clean_path rooted cs <> "".
Proof.
  intros H Hcs E. apply (f_equal list_ascii_of_string) in E.
  rewrite chars_clean_path in E. unfold path_chars in E.
  destruct rooted; [discriminate |].
  destruct H as [H | H]; [discriminate |].
  destruct cs as [| c cs]; [contradiction |].
  cbn in Hcs. apply andb_true_iff in Hcs. destruct Hcs as [Hc _].
  destruct (simple_name_chars c Hc) as (x & c' & Ec & _).
  rewrite Ec in E. discriminate.
Qed.

Lemma Join_clean_path (rooted : bool) (cs : list string) (name : string) :
  rooted = true \/ cs <> [] ->
  forallb simple_name cs = true ->
  simple_name name = true ->
  filepath.Join (clean_path rooted cs) name = clean_path rooted (cs ++ [name]).
Proof.
  intros Hq Hcs Hn.
  rewrite Join_nonempty.
  2: now apply clean_path_nonempty.
  2: { apply simple_name_inv in Hn. apply Hn. }
  rewrite <- (string_of_path_chars rooted (cs ++ [name])).
  destruct rooted.
  - destruct cs as [| c cs].
    + apply (Clean_rooted _ [name] ["/"%char] []); try reflexivity.
      * cbn. now rewrite Hn.
      * cbn. rewrite !app_nil_r. reflexivity.
    + apply (Clean_rooted _ ((c :: cs) ++ [name]) [] []); try reflexivity.
      * now apply forallb_snoc.
      * rewrite !list_ascii_of_string_app, chars_clean_path. unfold path_chars.
        cbn [app]. rewrite tail_chars_snoc, app_nil_r, <- !app_assoc. reflexivity.
  - destruct Hq as [Hq | Hq]; [discriminate |].
    destruct cs as [| c cs]; [contradiction |].
    cbn [forallb] in Hcs. apply andb_true_iff in Hcs. destruct Hcs as [Hc Hcs].
    unfold path_chars. cbn [app].
    apply (Clean_relative _ c (cs ++ [name]) []); try assumption; try reflexivity.
    + now apply forallb_snoc.
    + rewrite !list_ascii_of_string_app, chars_clean_path. unfold path_chars.
      cbn [app]. rewrite tail_chars_snoc, app_nil_r, <- !app_assoc. reflexivity.
Qed.

Lemma forallb_rev {A : Type} (f : A -> bool) (l : list A) :
  forallb f (rev l) = forallb f l.
Proof.
  induction l as [| a l IH]; [reflexivity |].
  cbn [rev forallb]. rewrite forallb_app, IH. cbn. rewrite andb_true_r. apply andb_comm.
Qed.

Lemma path_chars_snoc (rooted : bool) (cs : list string) (name : string) :
  path_chars rooted (cs ++ [name])
  = (before_name rooted cs ++ list_ascii_of_string name)%list.
Proof.
  unfold before_name, path_chars. destruct cs as [| c cs].
  - cbn. now rewrite app_nil_r.
  - cbn [app]. rewrite tail_chars_snoc, <- !app_assoc. reflexivity.
Qed.

Lemma before_name_ends (rooted : bool) (cs : list string) :
  filepath.at_element_end (rev (before_name rooted cs)) = true.
Proof.
  unfold before_name. destruct cs as [| c cs].
  - destruct rooted; reflexivity.
  - rewrite rev_app_distr. reflexivity.
Qed.

Lemma Dir_clean_path (rooted : bool) (cs : list string) (name : string) :
  forallb simple_name cs = true ->
  simple_name name = true ->
  filepath.Dir (clean_path rooted (cs ++ [name]))
  = match cs with
    | [] => if rooted then "/" else "."
    | _ => clean_path rooted cs
    end.
Proof.
  intros Hcs Hn. unfold filepath.Dir.
  rewrite chars_clean_path, path_chars_snoc, rev_app_distr.
  rewrite drop_while_app.
  2: { rewrite forallb_rev. apply simple_name_inv in Hn. apply Hn. }
  2: apply before_name_ends.
  rewrite rev_involutive. unfold before_name.
  destruct cs as [| c cs].
  - destruct rooted; reflexivity.
  - rewrite <- string_of_path_chars.
    cbn [forallb] in Hcs. apply andb_true_iff in Hcs. destruct Hcs as [Hc Hcs'].
    destruct rooted.
    + apply (Clean_rooted _ (c :: cs) [] ["/"%char]); try reflexivity.
      * cbn [forallb]. now rewrite Hc, Hcs'.
      * rewrite list_ascii_of_string_of_list_ascii. unfold path_chars.
        cbn [app]. rewrite <- !app_assoc. reflexivity.
    + unfold path_chars at 2. cbn [app].
      apply (Clean_relative _ c cs ["/"%char]); try assumption; try reflexivity.
      rewrite list_ascii_of_string_of_list_ascii. unfold path_chars.
      cbn [app]. rewrite <- !app_assoc. reflexivity.
Qed.

Lemma drop_separators_name (l X : list ascii) :
  l <> [] -> forallb not_separator l = true ->
  drop_while IsPathSeparator (l ++ X)%list = (l ++ X)%list.
Proof.
  intros Hl Hns. destruct l as [| a l]; [contradiction |].
  cbn in Hns. apply andb_true_iff in Hns. destruct Hns as [Ha _].
  unfold not_separator in Ha. apply negb_true_iff in Ha.
  cbn. now rewrite Ha.
Qed.

Lemma Base_clean_path (rooted : bool) (cs : list string) (name : string) :
  simple_name name = true ->
  path.Base (clean_path rooted (cs ++ [name])) = name.
Proof.
  intros Hn.
  pose proof (simple_name_inv _ Hn) as (Hne & Hns & _).
  assert (Hchars : list_ascii_of_string name <> []).
  { destruct name; [contradiction | discriminate]. }
  unfold path.Base.
  destruct (clean_path rooted (cs ++ [name])) eqn:E.
  - apply (f_equal list_ascii_of_string) in E.
    rewrite chars_clean_path, path_chars_snoc in E.
    apply app_eq_nil in E. destruct E as [_ E]. contradiction.
  - rewrite <- E. clear E.
    rewrite chars_clean_path, path_chars_snoc, rev_app_distr.
    rewrite drop_separators_name.
    2: { intros E. apply (f_equal (@rev ascii)) in E. rewrite rev_involutive in E.
         contradiction. }
    2: now rewrite forallb_rev.
    rewrite take_while_app by (rewrite ?forallb_rev; try assumption; apply before_name_ends).
    rewrite rev_involutive.
    destruct (list_ascii_of_string name) eqn:En; [contradiction |].
    rewrite <- En. apply string_of_list_ascii_of_string.
Qed.

Lemma Join_dot (name : string) :
  simple_name name = true -> filepath.Join "." name = name.
Proof.
  intros Hn.
  pose proof (simple_name_inv _ Hn) as (Hne & _).
  rewrite Join_nonempty by (try assumption; discriminate).
  unfold filepath.Clean. cbn [append list_ascii_of_string String.length].
  change (IsPathSeparator ".") with false. cbn iota.
  change (filepath.clean_loop (S (S (String.length name))) false
            ("."%char :: "/"%char :: list_ascii_of_string name) [] 0)
    with (filepath.clean_loop (String.length name) false (list_ascii_of_string name) [] 0).
  pose proof (clean_loop_path false name [] (String.length name) [] [] 0 Hn eq_refl
                eq_refl eq_refl) as H.
  cbn [app List.length Nat.add Nat.mul tail_chars flat_map] in H.
  rewrite !app_nil_r in H.
  rewrite H.
  2: { destruct name; [contradiction | cbn; lia]. }
  destruct (rev (list_ascii_of_string name)) eqn:Er.
  - apply (f_equal (@rev ascii)) in Er. rewrite rev_involutive in Er. cbn in Er.
    destruct name; [contradiction | discriminate].
  - rewrite <- Er, rev_involutive. apply string_of_list_ascii_of_string.
Qed.

(** ** The walk and the parent directory *)

(** X10.  The walk hands an entry [name] of a directory visited at the
    cleaned path [.../d] the path [.../d/name]; the rules that look at
    the parent directory, [path.Base(filepath.Dir(pth))], find [d]
    there. *)
Theorem parent_of_a_walked_entry
  (rooted : bool) (cs : list string) (d name : string) :
  forallb simple_name cs = true ->
  simple_name d = true ->
  simple_name name = true ->
  filepath.Join (clean_path rooted (cs ++ [d])) name = clean_path rooted (cs ++ [d; name])
  /\ filepath.Dir (filepath.Join (clean_path rooted (cs ++ [d])) name)
     = clean_path rooted (cs ++ [d])
  /\ path.Base (filepath.Dir (filepath.Join (clean_path rooted (cs ++ [d])) name)) = d.
Proof.
  intros Hcs Hd Hn.
  assert (Hq : forallb simple_name (cs ++ [d])%list = true) by now apply forallb_snoc.
  assert (HJ : filepath.Join (clean_path rooted (cs ++ [d])) name
               = clean_path rooted ((cs ++ [d]) ++ [name])).
  { apply Join_clean_path; try assumption.
    right. intros E. apply app_eq_nil in E. destruct E as [_ E]. discriminate. }
  assert (HD : filepath.Dir (clean_path rooted ((cs ++ [d]) ++ [name]))
               = clean_path rooted (cs ++ [d])).
  { rewrite Dir_clean_path by assumption.
    destruct (cs ++ [d])%list eqn:E; [| reflexivity].
    apply app_eq_nil in E. destruct E as [_ E]. discriminate. }
  rewrite HJ, HD. split; [now rewrite <- app_assoc |].
  split; [reflexivity | now apply Base_clean_path].
Qed.

Lemma parent_of_a_walked_entry_witness :
  filepath.Join "/home/u/.ssh" "id_rsa" = "/home/u/.ssh/id_rsa"
  /\ filepath.Dir (filepath.Join "/home/u/.ssh" "id_rsa") = "/home/u/.ssh"
  /\ path.Base (filepath.Dir (filepath.Join "/home/u/.ssh" "id_rsa")) = ".ssh".
Proof.
  apply (parent_of_a_walked_entry true ["home"; "u"] ".ssh" "id_rsa"); reflexivity.
Defined.

(** X11.  When the root is given as [.], the walk hands an entry of the
    root its bare name as path, and the parent directory the rules find
    for it is [.]: [ScanSSHKeys] and [ScanSSHConfig] report nothing for
    it, whatever its name and mode. *)
Theorem entries_of_dot_are_not_under_ssh
  (o : Scanner) (name : string) (st : os.fileStat) :
  simple_name name = true ->
  filepath.Join "." name = name
  /\ path.Base (filepath.Dir (filepath.Join "." name)) = "."
  /\ ScanSSHKeys o (filepath.Join "." name) (Some st) = Done []
  /\ ScanSSHConfig o (filepath.Join "." name) (Some st) = Done [].
Proof.
  intros Hn.
  assert (HB : path.Base (filepath.Dir name) = ".").
  { change name with (clean_path false ([] ++ [name])).
    rewrite Dir_clean_path by (try assumption; reflexivity). reflexivity. }
  rewrite Join_dot by assumption.
  split; [reflexivity |]. split; [exact HB |].
  rewrite ScanSSHKeys_policy, ScanSSHConfig_policy.
  unfold expects_SSHKeys, expects_SSHConfig, parent_is_ssh. rewrite HB.
  cbn [String.eqb Ascii.eqb Bool.eqb andb].
  rewrite !andb_false_r. split; reflexivity.
Qed.

Lemma entries_of_dot_are_not_under_ssh_witness :
  filepath.Join "." "id_rsa" = "id_rsa"
  /\ path.Base (filepath.Dir (filepath.Join "." "id_rsa")) = "."
  /\ ScanSSHKeys scanner_u (filepath.Join "." "id_rsa")
       (Some {| os.name := "id_rsa"; os.mode := 511 |}) = Done []
  /\ ScanSSHConfig scanner_u (filepath.Join "." "id_rsa")
       (Some {| os.name := "id_rsa"; os.mode := 511 |}) = Done [].
Proof.
  apply (entries_of_dot_are_not_under_ssh scanner_u "id_rsa"
           {| os.name := "id_rsa"; os.mode := 511 |}).
  reflexivity.
Defined.

(** ** What is reported, and what is not *)

Lemma flat_map_nil {A B : Type} (f : A -> list B) (l : list A) :
  flat_map f l = [] <-> forall x, In x l -> f x = [].
Proof.
  induction l as [| a l IH]; cbn.
  - split; [intros _ x [] | reflexivity].
  - split.
    + intros H. apply app_eq_nil in H. destruct H as [Ha Hl].
      intros x [<- | Hx]; [exact Ha | now apply IH].
    + intros H. rewrite (H a) by now left. cbn. apply IH. intros x Hx. apply H. now right.
Qed.

Lemma rules_of_policy : rules = map fst policy.
Proof. reflexivity. Qed.

(** An entry is compliant when no rule reports it. *)
Lemma entry_warnings_nil (o : Scanner) (pth : string) (st : os.fileStat) :
  entry_warnings o pth st = []
  <-> forall r, In r rules -> r o pth (Some st) = Done [].
Proof.
  unfold entry_warnings. rewrite flat_map_nil, rules_of_policy.
  pose proof policy_sound as Hs. rewrite Forall_forall in Hs.
  split.
  - intros H r Hr. apply in_map_iff in Hr. destruct Hr as (rc & <- & Hrc).
    rewrite (Hs rc Hrc). now rewrite (H rc Hrc).
  - intros H rc Hrc.
    specialize (H (fst rc) (in_map fst _ _ Hrc)).
    rewrite (Hs rc Hrc) in H. now injection H.
Qed.

Lemma entry_warnings_violation (o : Scanner) (pth : string) (st : os.fileStat) (w : string) :
  In w (entry_warnings o pth st) ->
  exists e, In e expected_modes /\ (os.mode st mod o01000)%N <> e
            /\ w = discrepancy pth e (os.mode st mod o01000)%N.
Proof.
  unfold entry_warnings. rewrite in_flat_map. intros (rc & Hrc & Hw).
  apply compare_format in Hw. destruct Hw as (e & He & Hne & ->).
  pose proof policy_expected_modes as Hm. rewrite Forall_forall in Hm.
  exists e. repeat split; [eapply Hm; eassumption | congruence].
Qed.

(** X12.  On Go's [filepath.Walk], every warning [Scan] returns is about
    an entry of the walk (never an entry below a directory that could
    not be read) whose permission bits differ from the expected mode
    that the warning prints. *)
Theorem every_warning_is_a_violation
  (home : string) (lstat : string -> error + os.node) (root : string)
  (ws : list string) (err : option error) (w : string) :
  Scan (go_host (inr home) lstat) root = Done (ws, err) ->
  In w ws ->
  exists (n : os.node) (p : string) (st : os.fileStat) (e : N),
    lstat root = inr n
    /\ In (p, st) (visited root n)
    /\ In e expected_modes
    /\ (os.mode st mod o01000)%N <> e
    /\ w = p ++ ": expected chmod " ++ fmt.verb_04o e
           ++ ", got " ++ fmt.verb_04o (os.mode st mod o01000).
Proof.
  rewrite Scan_go_host.
  destruct (lstat root) as [e0 | n]; [discriminate |].
  destruct (stable n); [| discriminate].
  intros H Hw. injection H as <- _.
  unfold scan_entries in Hw. apply in_flat_map in Hw.
  destruct Hw as ([p st] & Hin & Hw). cbn [fst snd] in Hw.
  apply entry_warnings_violation in Hw. destruct Hw as (e & He & Hne & ->).
  exists n, p, st, e. repeat split; assumption.
Qed.

Lemma every_warning_is_a_violation_witness :
  exists (n : os.node) (p : string) (st : os.fileStat) (e : N),
    only "." tree_unreadable "." = inr n
    /\ In (p, st) (visited "." n)
    /\ In e expected_modes
    /\ (os.mode st mod o01000)%N <> e
    /\ "work/known_hosts: expected chmod 0644, got 0600"
       = p ++ ": expected chmod " ++ fmt.verb_04o e
         ++ ", got " ++ fmt.verb_04o (os.mode st mod o01000).
Proof.
  apply (every_warning_is_a_violation "/home/u" (only "." tree_unreadable) "."
           [".ssh: expected chmod 0700, got 0755";
            ".ssh/id_test: expected chmod 0600, got 0644";
            "work/known_hosts: expected chmod 0644, got 0600"] None).
  - vm_compute. reflexivity.
  - cbn. tauto.
Defined.

(** X3.  On Go's [filepath.Walk], for a tree every reachable entry of
    which can be [Lstat]ed, [Report] prints nothing and returns 0
    exactly when every rule returns no warning on every entry of the
    walk; otherwise it returns 1. *)
Theorem Report_is_clean_iff
  (home : string) (lstat : string -> error + os.node) (root : string) (n : os.node) :
  lstat root = inr n ->
  stable n = true ->
  (Report (go_host (inr home) lstat) root = Done ([], 0%Z)
   <-> forall p st r, In (p, st) (visited root n) -> In r rules ->
                      r {| Warnings := []; Home := home |} p (Some st) = Done [])
  /\ (Report (go_host (inr home) lstat) root = Done ([], 0%Z)
      \/ exists w ws, Report (go_host (inr home) lstat) root = Done (w :: ws, 1%Z)).
Proof.
  intros Hl Hs. unfold Report. rewrite Scan_go_host, Hl, Hs. cbn [obind].
  set (ws := scan_entries _ _).
  assert (Hnil : ws = [] <-> forall p st r, In (p, st) (visited root n) -> In r rules ->
                      r {| Warnings := []; Home := home |} p (Some st) = Done []).
  { unfold ws, scan_entries. rewrite flat_map_nil. split.
    - intros H p st r Hin Hr. specialize (H _ Hin). cbn [fst snd] in H.
      now apply entry_warnings_nil.
    - intros H [p st] Hin. cbn [fst snd]. apply entry_warnings_nil.
      intros r Hr. now apply H. }
  split.
  - rewrite <- Hnil. destruct ws as [| w ws']; split; intros H;
      try reflexivity; discriminate.
  - destruct ws as [| w ws']; [left; reflexivity | right; now exists w, ws'].
Qed.

Lemma Report_is_clean_iff_witness :
  (Report (go_host (inr "/home/u") (only "." tree_id_test_0600)) "." = Done ([], 0%Z)
   <-> forall p st r, In (p, st) (visited "." tree_id_test_0600) -> In r rules ->
                      r scanner_u p (Some st) = Done [])
  /\ (Report (go_host (inr "/home/u") (only "." tree_id_test_0600)) "." = Done ([], 0%Z)
      \/ exists w ws,
           Report (go_host (inr "/home/u") (only "." tree_id_test_0600)) "."
           = Done (w :: ws, 1%Z)).
Proof.
  apply (Report_is_clean_iff "/home/u" (only "." tree_id_test_0600) "." tree_id_test_0600);
    reflexivity.
Defined.

Lemma entry_warnings_unclassified (o : Scanner) (pth : string) (st : os.fileStat) :
  os.name st <> ".ssh" ->
  os.name st <> "config" ->
  os.name st <> "authorized_keys" ->
  os.name st <> "known_hosts" ->
  os.name st <> Home o ->
  regexp.MatchString SSHKeyPattern (os.name st) = false ->
  entry_warnings o pth st = [].
Proof.
  intros H1 H2 H3 H4 H5 H6.
  apply String.eqb_neq in H1, H2, H3, H4, H5.
  unfold entry_warnings, policy. cbn [flat_map fst snd].
  unfold expects_SSH, expects_SSHConfig, expects_SSHKeys,
    expects_SSHAuthorizedKeys, expects_SSHKnownHosts, expects_Home.
  rewrite H1, H2, H3, H4, H5, H6. reflexivity.
Qed.

(** X13.  An entry whose base name is none of [.ssh], [config],
    [authorized_keys], [known_hosts] and the home string, and does not
    match [^id_.+$], is never reported: [Walk] leaves the scanner as it
    was, whatever the path, the mode and the error handed to it. *)
Theorem unclassified_entry_is_silent
  (o : Scanner) (pth : string) (st : os.fileStat) (err : option error) :
  os.name st <> ".ssh" ->
  os.name st <> "config" ->
  os.name st <> "authorized_keys" ->
  os.name st <> "known_hosts" ->
  os.name st <> Home o ->
  regexp.MatchString SSHKeyPattern (os.name st) = false ->
  Walk pth (Some st) err o = Done (None, o).
Proof.
  intros H1 H2 H3 H4 H5 H6.
  rewrite Walk_entry, entry_warnings_unclassified by assumption.
  now rewrite append_all_nil.
Qed.

Lemma unclassified_entry_is_silent_witness :
  Walk "/etc/passwd" (Some {| os.name := "passwd"; os.mode := 511 |})
       (Some (EACCES "open" "/etc/passwd")) scanner_u
  = Done (None, scanner_u).
Proof.
  apply (unclassified_entry_is_silent scanner_u "/etc/passwd"
           {| os.name := "passwd"; os.mode := 511 |});
    try (vm_compute; discriminate); reflexivity.
Defined.

(** X15.  Whenever [Walk] returns, it returns the nil error, its
    [FileInfo] was not nil, the home string of the scanner is unchanged
    and the warnings are the ones held before followed by at most six
    new ones. *)
Theorem Walk_only_appends
  (pth : string) (info : os.FileInfo) (err r : option error) (o o' : Scanner) :
  Walk pth info err o = Done (r, o') ->
  r = None
  /\ info <> None
  /\ Home o' = Home o
  /\ exists ws, Warnings o' = (Warnings o ++ ws)%list /\ (List.length ws <= 6)%nat.
Proof.
  destruct info as [st |]; [| rewrite Walk_nil_info; discriminate].
  rewrite Walk_entry. intros H. injection H as <- <-.
  split; [reflexivity |]. split; [discriminate |]. split; [reflexivity |].
  exists (entry_warnings o pth st). split; [reflexivity |].
  unfold entry_warnings, policy. cbn [flat_map fst snd].
  rewrite !length_app. cbn [List.length].
  repeat match goal with
         | |- context [List.length (compare ?p ?e ?m)] =>
             let H := fresh in
             pose proof (compare_length p e m) as H;
             generalize dependent (List.length (compare p e m)); intros
         end.
  lia.
Qed.

Lemma Walk_only_appends_witness :
  @None error = None
  /\ Some {| os.name := ".ssh"; os.mode := 420 |} <> None
  /\ Home {| Warnings := ["a: expected chmod 0600, got 0644";
                          ".ssh: expected chmod 0700, got 0644"];
             Home := "/home/u" |}
     = Home {| Warnings := ["a: expected chmod 0600, got 0644"]; Home := "/home/u" |}
  /\ exists ws,
       Warnings {| Warnings := ["a: expected chmod 0600, got 0644";
                                ".ssh: expected chmod 0700, got 0644"];
                   Home := "/home/u" |}
       = (Warnings {| Warnings := ["a: expected chmod 0600, got 0644"]; Home := "/home/u" |}
          ++ ws)%list
       /\ (List.length ws <= 6)%nat.
Proof.
  apply (Walk_only_appends ".ssh" (Some {| os.name := ".ssh"; os.mode := 420 |}) None None
           {| Warnings := ["a: expected chmod 0600, got 0644"]; Home := "/home/u" |}).
  reflexivity.
Defined.

(** A private key below [.ssh]: the only rule that applies is the one
    for keys. *)
Lemma entry_warnings_private_key (o : Scanner) (pth : string) (st : os.fileStat) :
  regexp.MatchString SSHKeyPattern (os.name st) = true ->
  regexp.MatchString SSHPublicKeyPattern (os.name st) = false ->
  parent_is_ssh pth = true ->
  os.name st <> Home o ->
  entry_warnings o pth st = compare pth (Some o0600) (os.mode st mod o01000)%N.
Proof.
  intros Hk Hp Hs Hh. apply String.eqb_neq in Hh.
  unfold entry_warnings, policy. cbn [flat_map fst snd].
  unfold expects_SSH, expects_SSHConfig, expects_SSHKeys,
    expects_SSHAuthorizedKeys, expects_SSHKnownHosts, expects_Home.
  rewrite Hk, Hp, Hs, Hh.
  apply SSHKeyPattern_spec in Hk. destruct Hk as (rest & -> & _).
  cbn [append String.eqb Ascii.eqb Bool.eqb andb].
  rewrite !compare_None. cbn [app]. now rewrite app_nil_r.
Qed.

Lemma entry_warnings_ssh_0700 (o : Scanner) (pth : string) :
  Home o <> ".ssh" ->
  entry_warnings o pth {| os.name := ".ssh"; os.mode := os.ModeDir + o0700 |} = [].
Proof.
  intros Hh. apply not_eq_sym in Hh. apply String.eqb_neq in Hh.
  unfold entry_warnings, policy. cbn [flat_map fst snd os.name os.mode].
  unfold expects_SSH, expects_SSHConfig, expects_SSHKeys,
    expects_SSHAuthorizedKeys, expects_SSHKnownHosts, expects_Home.
  rewrite Hh. reflexivity.
Qed.

Lemma visited_tree_with_key (name : string) (m : N) :
  simple_name name = true ->
  stable (tree_with_key name m) = true
  /\ visited "." (tree_with_key name m)
     = [(".", {| os.name := "."; os.mode := os.ModeDir + o0755 |});
        (".ssh", {| os.name := ".ssh"; os.mode := os.ModeDir + o0700 |});
        (".ssh/" ++ name, {| os.name := name; os.mode := m |})].
Proof.
  intros Hn.
  assert (HJ : filepath.Join ".ssh" name = ".ssh/" ++ name).
  { apply (Join_clean_path false [".ssh"] name); [right; discriminate | reflexivity | assumption]. }
  unfold tree_with_key, dir, file.
  cbn [stable stable_names visited visited_names].
  change (os.IsDir {| os.name := "."; os.mode := os.ModeDir + o0755 |}) with true.
  change (os.IsDir {| os.name := ".ssh"; os.mode := os.ModeDir + o0700 |}) with true.
  change (filepath.Join "." ".ssh") with ".ssh".
  cbn iota. rewrite HJ.
  destruct (os.IsDir {| os.name := name; os.mode := m |}); split; reflexivity.
Qed.

(** X2.  Scanning [.], a directory of mode [0755] that holds [.ssh] of
    mode [0700] with one private key in it: when the permission bits of
    the key are not [0600], [Report] prints the single line
    [.ssh/<name>: expected chmod 0600, got <bits>] and returns 1; when
    they are [0600] it prints nothing and returns 0. *)
Theorem private_key_under_ssh_is_reported (home name : string) (m : N) :
  simple_name name = true ->
  regexp.MatchString SSHKeyPattern name = true ->
  regexp.MatchString SSHPublicKeyPattern name = false ->
  home <> "." -> home <> ".ssh" -> home <> name ->
  ((m mod o01000 <> o0600)%N ->
   Report (go_host (inr home) (only "." (tree_with_key name m))) "."
   = Done ([".ssh/" ++ name ++ ": expected chmod 0600, got " ++ fmt.verb_04o (m mod o01000)],
           1%Z))
  /\ ((m mod o01000 = o0600)%N ->
      Report (go_host (inr home) (only "." (tree_with_key name m))) "." = Done ([], 0%Z)).
Proof.
  intros Hn Hk Hp H1 H2 H3.
  destruct (visited_tree_with_key name m Hn) as [Hs Hv].
  assert (HS : Scan (go_host (inr home) (only "." (tree_with_key name m))) "."
               = Done (compare (".ssh/" ++ name) (Some o0600) (m mod o01000)%N, None)).
  { rewrite Scan_go_host. unfold only. rewrite String.eqb_refl, Hs, Hv.
    unfold scan_entries. cbn [flat_map fst snd].
    rewrite entry_warnings_unclassified;
      try (cbn [os.name]; discriminate); try reflexivity.
    2: { cbn [os.name Home]. now apply not_eq_sym. }
    rewrite entry_warnings_ssh_0700 by exact H2.
    rewrite entry_warnings_private_key; try assumption.
    - cbn [app os.mode]. now rewrite app_nil_r.
    - unfold parent_is_ssh.
      change (".ssh/" ++ name) with (clean_path false ([".ssh"] ++ [name])).
      rewrite Dir_clean_path by (try assumption; reflexivity). reflexivity.
    - cbn [os.name Home]. now apply not_eq_sym. }
  unfold Report. rewrite HS. cbn [obind].
  destruct (compare_expected (".ssh/" ++ name) o0600 (m mod o01000)) as [Heq Hne].
  split; intros H.
  - rewrite (Hne H). reflexivity.
  - rewrite (Heq H). reflexivity.
Qed.

Lemma private_key_under_ssh_is_reported_witness :
  Report (go_host (inr "/home/u") (only "." (tree_with_key "id_test" o0644))) "."
  = Done ([".ssh/id_test: expected chmod 0600, got 0644"], 1%Z)
  /\ Report (go_host (inr "/home/u") (only "." (tree_with_key "id_test" o0600))) "."
     = Done ([], 0%Z).
Proof.
  split.
  - apply (proj1 (private_key_under_ssh_is_reported "/home/u" "id_test" o0644
                    eq_refl eq_refl eq_refl
                    ltac:(discriminate) ltac:(discriminate) ltac:(discriminate))).
    vm_compute. discriminate.
  - apply (proj2 (private_key_under_ssh_is_reported "/home/u" "id_test" o0600
                    eq_refl eq_refl eq_refl
                    ltac:(discriminate) ltac:(discriminate) ltac:(discriminate))).
    reflexivity.
Defined.

(** X14.  An entry that the walk reaches in a directory that is not
    called [.ssh] is reported neither by [ScanSSHKeys] nor by
    [ScanSSHConfig], whatever its name and mode. *)
Theorem outside_ssh_keys_and_config_are_not_checked
  (rooted : bool) (cs : list string) (d name : string) (o : Scanner) (st : os.fileStat) :
  forallb simple_name cs = true ->
  simple_name d = true ->
  simple_name name = true ->
  d <> ".ssh" ->
  ScanSSHKeys o (filepath.Join (clean_path rooted (cs ++ [d])) name) (Some st) = Done []
  /\ ScanSSHConfig o (filepath.Join (clean_path rooted (cs ++ [d])) name) (Some st) = Done [].
Proof.
  intros Hcs Hd Hn Hne.
  assert (HB : parent_is_ssh (filepath.Join (clean_path rooted (cs ++ [d])) name) = false).
  { unfold parent_is_ssh. apply String.eqb_neq.
    rewrite Join_clean_path; try assumption.
    - rewrite Dir_clean_path; try assumption; [| now apply forallb_snoc].
      destruct (cs ++ [d])%list eqn:E.
      + apply app_eq_nil in E. destruct E as [_ E]. discriminate.
      + rewrite <- E. now rewrite Base_clean_path.
    - right. intros E. apply app_eq_nil in E. destruct E as [_ E]. discriminate.
    - now apply forallb_snoc. }
  rewrite ScanSSHKeys_policy, ScanSSHConfig_policy.
  unfold expects_SSHKeys, expects_SSHConfig. rewrite HB, !andb_false_r.
  split; reflexivity.
Qed.

Lemma outside_ssh_keys_and_config_are_not_checked_witness :
  ScanSSHKeys scanner_u (filepath.Join "/home/u/backup" "id_rsa")
    (Some {| os.name := "id_rsa"; os.mode := 511 |}) = Done []
  /\ ScanSSHConfig scanner_u (filepath.Join "/home/u/backup" "id_rsa")
       (Some {| os.name := "id_rsa"; os.mode := 511 |}) = Done [].
Proof.
  apply (outside_ssh_keys_and_config_are_not_checked true ["home"; "u"] "backup" "id_rsa"
           scanner_u {| os.name := "id_rsa"; os.mode := 511 |});
    try reflexivity.
  discriminate.
Defined.

(** X8.  The home-directory rule compares the base name of the entry
    with the whole string [os.UserHomeDir] returned.  When that string
    holds a separator, as [/home/u] does, no entry whose base name is
    free of separators is reported by the rule, whatever its path and
    mode: not even the home directory itself. *)
Theorem ScanHome_never_fires_for_a_home_path
  (o : Scanner) (pth : string) (st : os.fileStat) :
  existsb IsPathSeparator (list_ascii_of_string (Home o)) = true ->
  forallb not_separator (list_ascii_of_string (os.name st)) = true ->
  ScanHome o pth (Some st) = Done [].
Proof.
  intros Hh Hn. apply ScanHome_skips_other_names. intros E. rewrite E in Hn.
  apply existsb_exists in Hh. destruct Hh as (c & Hin & Hc).
  rewrite forallb_forall in Hn. specialize (Hn c Hin).
  unfold not_separator in Hn. rewrite Hc in Hn. discriminate.
Qed.

Lemma ScanHome_never_fires_for_a_home_path_witness :
  ScanHome scanner_u "/home/u" (Some {| os.name := "u"; os.mode := os.ModeDir + 511 |})
  = Done [].
Proof.
  apply (ScanHome_never_fires_for_a_home_path scanner_u "/home/u"
           {| os.name := "u"; os.mode := os.ModeDir + 511 |});
    reflexivity.
Defined.

(** ** The home directory *)

(** C4.  The home-directory rule misses the home directory.  When
    [os.UserHomeDir] returned an absolute path [/.../d], an entry whose
    base name is the name of the home directory, [d], is not the string
    [ScanHome] compares it with (the whole path): the rule reports
    nothing for it, whatever its path and its mode, [0755] or not. *)
Theorem home_directory_is_not_checked
  (o : Scanner) (cs : list string) (d pth : string) (st : os.fileStat) :
  forallb simple_name cs = true ->
  simple_name d = true ->
  Home o = clean_path true (cs ++ [d]) ->
  os.name st = path.Base (Home o) ->
  os.name st = d
  /\ os.name st <> Home o
  /\ ScanHome o pth (Some st) = Done [].
Proof.
  intros Hcs Hd Hh Hn.
  assert (Hname : os.name st = d).
  { rewrite Hn, Hh. now apply Base_clean_path. }
  assert (Hne : os.name st <> Home o).
  { rewrite Hname, Hh. intros E.
    apply (f_equal list_ascii_of_string) in E.
    rewrite chars_clean_path in E. unfold path_chars in E. cbn [app] in E.
    destruct (simple_name_chars d Hd) as (x & c' & Ed & Hx).
    rewrite Ed in E. injection E as -> _. discriminate Hx. }
  split; [exact Hname |]. split; [exact Hne |].
  now apply ScanHome_skips_other_names.
Qed.

Lemma home_directory_is_not_checked_witness :
  os.name {| os.name := "u"; os.mode := os.ModeDir + 511 |} = "u"
  /\ os.name {| os.name := "u"; os.mode := os.ModeDir + 511 |} <> Home scanner_u
  /\ ScanHome scanner_u "/home/u" (Some {| os.name := "u"; os.mode := os.ModeDir + 511 |})
     = Done [].
Proof.
  apply (home_directory_is_not_checked scanner_u ["home"] "u" "/home/u"
           {| os.name := "u"; os.mode := os.ModeDir + 511 |});
    reflexivity.
Defined.
